(** * CredExtractor: a shallow embedding of [CredExtractor.py]

    The program scans text files for lines of the shape
    [URL:username:password], keeps those whose URL contains one of the
    keywords, and writes the records as json, csv or txt.

    Conventions of the embedding.
    - A Python [str] is a [list char].  A character is a code point in
      the range 0..255, which is all of ISO-8859-1 and the part of
      Unicode on which the classes [\s], [\d] and the case mappings used
      by the program are given below in full, or one of the lone
      surrogates U+DC00..U+DCFF: [os.fsdecode] puts U+DC00 + b in a
      file name for a byte b that does not decode.
    - A Python [dict] is an association list in insertion order, which is
      the order [json.dump] prints.
    - A [try]/[except] is written out as a match on the exception that
      the body ended with; the list [search_results], which the body
      mutates in place, is threaded through explicitly. *)

From Stdlib Require Import String Ascii List ZArith NArith Bool Lia.
From Stdlib Require Decimal DecimalString DecimalZ.
Import ListNotations.

Local Open Scope list_scope.
Local Open Scope bool_scope.

(** ** Text *)

(** A character of a [str]: [Chr c] is the code point of [c], in
    0..255; [Lone b] is the lone surrogate U+DC00 + [b], which no
    UTF-8 text holds. *)
Inductive char : Type :=
| Chr (c : ascii)
| Lone (b : ascii).

Coercion Chr : ascii >-> char.

Definition str : Type := list char.

(** [py "abc"] is the Python literal ['abc']. *)
Definition py (s : string) : str := map Chr (list_ascii_of_string s).

Definition code (c : char) : N :=
  match c with
  | Chr a => N_of_ascii a
  | Lone b => (56320 + N_of_ascii b)%N
  end.

(** [x == y] on characters. *)
Definition char_eqb (x y : char) : bool :=
  match x, y with
  | Chr a, Chr b => Ascii.eqb a b
  | Lone a, Lone b => Ascii.eqb a b
  | _, _ => false
  end.

Definition char_dec (x y : char) : {x = y} + {x <> y}.
Proof. decide equality; apply ascii_dec. Defined.

Definition in_range (lo hi : N) (c : char) : bool :=
  (lo <=? code c)%N && (code c <=? hi)%N.

(** [\s] on a [str] pattern ([Py_UNICODE_ISSPACE]), and [str.isspace]:
    TAB..CR, FS..US, SPACE, NEL and NBSP are the members below 256; no
    surrogate is one. *)
Definition is_space (c : char) : bool :=
  in_range 9 13 c || in_range 28 32 c
  || (code c =? 133)%N || (code c =? 160)%N.

(** [\d] ([Py_UNICODE_ISDECIMAL]): below 256 only the ASCII digits, and
    no surrogate. *)
Definition is_digit (c : char) : bool := in_range 48 57 c.

(** The lower-case mapping of [str.lower] and of [re.IGNORECASE]:
    A..Z and the Latin-1 capitals (all of 0xC0..0xDE but the
    multiplication sign) move up by 32; a surrogate has no case. *)
Definition lower_char (c : char) : char :=
  if in_range 65 90 c
     || (in_range 192 222 c && negb (code c =? 215)%N)
  then Chr (ascii_of_N (code c + 32))
  else c.

Definition lower (s : str) : str := map lower_char s.

Definition colon : char := ":"%char.
Definition slash : char := "/"%char.

(** ** The regular expressions of the pattern

    Only what [CREDENTIAL_PATTERN] uses: literals (compared without
    case, the pattern is compiled with [re.IGNORECASE]), greedy
    repetitions of a character class, sequence, the greedy option and
    capturing groups. *)

Inductive regex : Type :=
| Lit (c : char)
| Many0 (p : char -> bool)
| Many1 (p : char -> bool)
| Cat (r1 r2 : regex)
| Opt (r : regex)
| Group (n : nat) (r : regex).

Definition groups : Type := nat -> str.

Definition no_groups : groups := fun _ => [].

Definition set_group (n : nat) (m : str) (g : groups) : groups :=
  fun i => if Nat.eqb i n then m else g i.

Section Backtracking.

Context {R : Type}.

(** [p*], longest first: the continuation [k] gets the text matched
    and the rest of the line, and is tried again with one character
    less each time it fails. *)
Fixpoint many0 (p : char -> bool) (s : str)
    (k : str -> str -> option R) : option R :=
  match s with
  | [] => k [] []
  | c :: s' =>
      if p c then
        match many0 p s' (fun m t => k (c :: m) t) with
        | Some r => Some r
        | None => k [] s
        end
      else k [] s
  end.

Definition many1 (p : char -> bool) (s : str)
    (k : str -> str -> option R) : option R :=
  match s with
  | [] => None
  | c :: s' => if p c then many0 p s' (fun m t => k (c :: m) t) else None
  end.

(** The backtracking matcher of [re]: [run r s g k] matches [r] at the
    start of [s] and hands the matched text, the rest and the groups to
    [k]; alternatives are tried in the priority order of the engine and
    the first one on which [k] succeeds wins. *)
Fixpoint run (r : regex) (s : str) (g : groups)
    (k : str -> str -> groups -> option R) : option R :=
  match r with
  | Lit c =>
      match s with
      | x :: s' =>
          if char_eqb (lower_char x) (lower_char c) then k [x] s' g
          else None
      | [] => None
      end
  | Many0 p => many0 p s (fun m t => k m t g)
  | Many1 p => many1 p s (fun m t => k m t g)
  | Cat r1 r2 =>
      run r1 s g (fun m1 s1 g1 =>
        run r2 s1 g1 (fun m2 s2 g2 => k (m1 ++ m2) s2 g2))
  | Opt r' =>
      match run r' s g k with
      | Some x => Some x
      | None => k [] s g
      end
  | Group n r' => run r' s g (fun m t g' => k m t (set_group n m g'))
  end.

End Backtracking.

Fixpoint lits (cs : str) (r : regex) : regex :=
  match cs with
  | [] => r
  | c :: cs' => Cat (Lit c) (lits cs' r)
  end.

(** [[^\s:/]], the class of the host and of the username. *)
Definition host_char (c : char) : bool :=
  negb (is_space c || char_eqb c colon || char_eqb c slash).

Definition user_char (c : char) : bool :=
  negb (char_eqb c colon || char_eqb c slash || is_space c).

(** [[^/\s]], the class of the password. *)
Definition pass_char (c : char) : bool :=
  negb (char_eqb c slash || is_space c).

(** [[^\s]], the class of the path. *)
Definition path_char (c : char) : bool := negb (is_space c).

(** After the host: the optional [:\d+], then the optional [/] with any
    run of [[^\s]]. *)
Definition port_regex : regex := Cat (Lit colon) (Many1 is_digit).

Definition path_regex : regex := Cat (Lit slash) (Many0 path_char).

Definition after_host : regex := Cat (Opt port_regex) (Opt path_regex).

(** Group 1 of the pattern: [https?://], then [[^\s:/]+], then the port
    and the path. *)
Definition url_regex : regex :=
  lits (py "http")
    (Cat (Opt (Lit "s"%char))
       (lits (py "://") (Cat (Many1 host_char) after_host))).

(** What follows group 1: [:([^:/\s]+):([^/\s]+)]. *)
Definition tail_regex : regex :=
  Cat (Lit colon)
    (Cat (Group 2 (Many1 user_char))
       (Cat (Lit colon) (Group 3 (Many1 pass_char)))).

Definition CREDENTIAL_PATTERN : regex :=
  Cat (Group 1 url_regex) tail_regex.

(** [pattern.match(line)]: the groups of a match at the start. *)
Definition match_here (r : regex) (s : str) : option groups :=
  run r s no_groups (fun _ _ g => Some g).

(** [pattern.search(line)]: the leftmost start at which [r] matches. *)
Fixpoint search (r : regex) (s : str) : option groups :=
  match match_here r s with
  | Some g => Some g
  | None =>
      match s with
      | [] => None
      | _ :: s' => search r s'
      end
  end.

(** [match.groups()] of the three-group pattern. *)
Definition triple : Type := (str * str * str)%type.

Definition groups3 (g : groups) : triple := (g 1, g 2, g 3).

Definition extract (line : str) : option triple :=
  option_map groups3 (search CREDENTIAL_PATTERN line).

Definition is_some {A : Type} (o : option A) : bool :=
  match o with Some _ => true | None => false end.

(** No match of the pattern starts at one of the first [n] positions
    of the line. *)
Fixpoint no_match_before (n : nat) (line : str) : bool :=
  match n with
  | O => true
  | S n' =>
      negb (is_some (match_here CREDENTIAL_PATTERN line))
      && match line with
         | [] => true
         | _ :: l => no_match_before n' l
         end
  end.

(** A token ends where the line ends or white space follows. *)
Definition ends_token (post : str) : bool :=
  match post with
  | [] => true
  | c :: _ => is_space c
  end.


(** A repetition of the class [p] stops at [rest]. *)
Definition stops (p : char -> bool) (rest : str) : bool :=
  match rest with
  | [] => true
  | c :: _ => negb (p c)
  end.

(** The continuation [k] fails wherever the rest does not start with a
    character of [q]. *)
Definition needs {R : Type} (q : char -> bool)
    (k : str -> str -> option R) : Prop :=
  forall m t, stops q t = true -> k m t = None.

(** The literal [c] as a class, without case. *)
Definition like (c : char) : char -> bool :=
  fun x => char_eqb (lower_char x) (lower_char c).

(** The port part of a URL text: nothing, or a colon and the digits. *)
Definition port_text (P : str) : str :=
  match P with
  | [] => []
  | _ => colon :: P
  end.

(** The path part of a URL text: nothing, or a slash and what follows. *)
Definition path_text (PATH : option str) : str :=
  match PATH with
  | None => []
  | Some p => slash :: p
  end.

(** ** Values, dicts and records *)

(** The values the program puts in a dict: [str] and [int]. *)
Inductive value : Type :=
| VStr (s : str)
| VInt (n : Z).

(** A dict with its keys in insertion order. *)
Definition dict : Type := list (string * value).

Definition keys (d : dict) : list string := map fst d.

(** [key in d] *)
Definition has_key (key : string) (d : dict) : bool :=
  existsb (String.eqb key) (keys d).

(** [d.get(key)] *)
Fixpoint get (key : string) (d : dict) : option value :=
  match d with
  | [] => None
  | (k, v) :: d' => if String.eqb key k then Some v else get key d'
  end.

(** The dict literal of lines 54 to 60. *)
Definition match_record (url username password source : str) (line : Z)
    : dict :=
  [ ("url"%string, VStr url);
    ("username"%string, VStr username);
    ("password"%string, VStr password);
    ("source"%string, VStr source);
    ("line"%string, VInt line) ].

(** The dict literal of lines 66 and 70. *)
Definition error_record (error source : str) : dict :=
  [ ("error"%string, VStr error);
    ("source"%string, VStr source) ].

(** The records of the data model, and the dict each one is in the
    program. *)
Inductive record : Type :=
| MatchRecord (url username password source : str) (line : Z)
| ErrorRecord (error source : str).

Definition to_dict (r : record) : dict :=
  match r with
  | MatchRecord url username password source line =>
      match_record url username password source line
  | ErrorRecord error source => error_record error source
  end.

Definition is_match (r : record) : bool :=
  match r with MatchRecord _ _ _ _ _ => true | ErrorRecord _ _ => false end.

Definition is_error (r : record) : bool := negb (is_match r).

Definition source_of (r : record) : str :=
  match r with
  | MatchRecord _ _ _ source _ => source
  | ErrorRecord _ source => source
  end.

(** ** Exceptions *)

(** The classes of the exceptions that the calls of the program raise.
    All of them derive from [Exception]; [UnicodeDecodeError] and
    [UnicodeEncodeError] derive from [ValueError], and [IOError] is
    [OSError]. *)
Inductive exn_class : Type :=
| UnicodeDecodeError
| UnicodeEncodeError
| ValueError
| OSError
| KeyError
| EOFError.

(** An exception: its class and [str(e)]. *)
Record exn : Type := Exn { exn_class_of : exn_class; exn_text : str }.

(** The classes that the [except] clauses of the program name. *)
Inductive handler : Type :=
| ExceptUnicodeDecodeError
| ExceptValueError
| ExceptIOError
| ExceptException.

(** [isinstance(e, handler)] *)
Definition caught_by (h : handler) (e : exn) : bool :=
  match h, exn_class_of e with
  | ExceptUnicodeDecodeError, UnicodeDecodeError => true
  | ExceptUnicodeDecodeError, _ => false
  | ExceptValueError,
    (ValueError | UnicodeDecodeError | UnicodeEncodeError) => true
  | ExceptValueError, _ => false
  | ExceptIOError, OSError => true
  | ExceptIOError, _ => false
  | ExceptException, _ => true
  end.

(** A call returns or raises. *)
Inductive result (A : Type) : Type :=
| Return (a : A)
| Raise (e : exn).

Arguments Return {A} a.
Arguments Raise {A} e.

(** One call after another: the first exception ends the sequence. *)
Definition bind {A B : Type} (r : result A) (k : A -> result B)
    : result B :=
  match r with
  | Return a => k a
  | Raise e => Raise e
  end.

Notation "x <- r ;; k" := (bind r (fun x => k))
  (at level 61, r at next level, right associativity).

(** ** The keyword test *)

(** [a] is a prefix of [s]. *)
Fixpoint starts_with (s a : str) {struct a} : bool :=
  match a, s with
  | [], _ => true
  | _ :: _, [] => false
  | x :: a', y :: s' => char_eqb x y && starts_with s' a'
  end.

(** [a in s] on strings. *)
Fixpoint contains (s a : str) : bool :=
  starts_with s a
  || match s with
     | [] => false
     | _ :: s' => contains s' a
     end.

(** [any(keyword.lower() in url.lower() for keyword in keywords)] *)
Definition keyword_hit (keywords : list str) (url : str) : bool :=
  existsb (fun keyword => contains (lower url) (lower keyword)) keywords.

(** ** Reading a file *)

Inductive encoding : Type := utf_8 | iso_8859_1 | utf_16.

Definition encoding_name (e : encoding) : str :=
  match e with
  | utf_8 => py "utf-8"
  | iso_8859_1 => py "ISO-8859-1"
  | utf_16 => py "utf-16"
  end.

Definition encodings_to_try : list encoding := [utf_8; iso_8859_1; utf_16].

(** What [file_path.open('r', encoding=...)] and the iteration over the
    file give to the loop: the lines that come out one after the other,
    and then the end of the file ([None]) or the exception that [open],
    the decoder, the read or the close raises.  A text file is decoded
    chunk by chunk, so lines of the chunks before a bad byte do come
    out before the [UnicodeDecodeError]. *)
Record reading : Type := Reading {
  lines : list str;
  ending : option exn
}.

(** A file of the scan: [str(file_path)] and what reading it gives
    under each encoding. *)
Record file : Type := File {
  file_name : str;
  open_as : encoding -> reading
}.

(** The body of the loop over the lines, lines 50 to 60: the list
    [search_results] before and after. *)
Definition scan_line (source : str) (keywords : list str)
    (line_number : Z) (line : str) (search_results : list dict)
    : list dict :=
  match extract line with
  | Some (url, username, password) =>
      if keyword_hit keywords url
      then search_results
             ++ [match_record url username password source line_number]
      else search_results
  | None => search_results
  end.

(** [for line_number, line in enumerate(f, start=...)] *)
Fixpoint scan_lines (source : str) (keywords : list str)
    (line_number : Z) (ls : list str) (search_results : list dict)
    : list dict :=
  match ls with
  | [] => search_results
  | line :: ls' =>
      scan_lines source keywords (line_number + 1) ls'
        (scan_line source keywords line_number line search_results)
  end.

(** The body of the [try], lines 48 to 60: the list as the body leaves
    it, and the exception it ended with, if any.  The list is the one
    object [search_results]: what was appended before an exception
    stays in it. *)
Definition read_with (f : file) (keywords : list str) (enc : encoding)
    (search_results : list dict) : list dict * option exn :=
  let rd := open_as f enc in
  (scan_lines (file_name f) keywords 1 (lines rd) search_results,
   ending rd).

(** The loop over the encodings with its [break], [continue], [return]
    and [else], lines 46 to 72. *)
Fixpoint try_encodings (f : file) (keywords : list str)
    (encs : list encoding) (search_results : list dict)
    : result (list dict) :=
  match encs with
  | [] =>
      Return [error_record
                (py "Could not read " ++ file_name f
                   ++ py " with available encodings")
                (file_name f)]
  | enc :: encs' =>
      match read_with f keywords enc search_results with
      | (search_results', None) => Return search_results'
      | (search_results', Some e) =>
          if caught_by ExceptUnicodeDecodeError e then
            try_encodings f keywords encs' search_results'
          else if caught_by ExceptException e then
            Return [error_record
                      (py "Error reading file with encoding "
                         ++ encoding_name enc)
                      (file_name f)]
          else Raise e
      end
  end.

Definition search_keywords_in_file (f : file) (keywords : list str)
    : result (list dict) :=
  try_encodings f keywords encodings_to_try [].

(** The loop of [main] over the files, lines 184 to 190:
    [all_search_results.extend(results)] for each file in turn. *)
Fixpoint scan_files (txt_files : list file) (keywords : list str)
    (all_search_results : list dict) : result (list dict) :=
  match txt_files with
  | [] => Return all_search_results
  | file_path :: rest =>
      match search_keywords_in_file file_path keywords with
      | Return results =>
          scan_files rest keywords (all_search_results ++ results)
      | Raise e => Raise e
      end
  end.

(** ** The words of the specification about a file *)

(** The failure of the Decoding File Reader (4.2 of the specification):
    every candidate encoding ends in a decode error, or an attempt ends
    in another error; the result is the cause that is reported. *)
Fixpoint read_failure_from (f : file) (encs : list encoding) : option str :=
  match encs with
  | [] =>
      Some (py "Could not read " ++ file_name f
              ++ py " with available encodings")
  | enc :: encs' =>
      match ending (open_as f enc) with
      | None => None
      | Some e =>
          match exn_class_of e with
          | UnicodeDecodeError => read_failure_from f encs'
          | _ => Some (py "Error reading file with encoding "
                         ++ encoding_name enc)
          end
      end
  end.

Definition read_failure (f : file) : option str :=
  read_failure_from f encodings_to_try.

(** The first encoding under which the whole file decodes, the ones
    before it having ended in a decode error. *)
Fixpoint first_decode_from (f : file) (encs : list encoding)
    : option (list str) :=
  match encs with
  | [] => None
  | enc :: encs' =>
      match ending (open_as f enc) with
      | None => Some (lines (open_as f enc))
      | Some e =>
          match exn_class_of e with
          | UnicodeDecodeError => first_decode_from f encs'
          | _ => None
          end
      end
  end.

Definition first_decode (f : file) : option (list str) :=
  first_decode_from f encodings_to_try.

(** The records of the lines of one decode of the file. *)
Definition records_of_lines (f : file) (keywords : list str)
    (ls : list str) : list dict :=
  scan_lines (file_name f) keywords 1 ls [].

(** The records of the lines that the attempts given up before the
    first complete decode had handed over. *)
Fixpoint abandoned_records (f : file) (keywords : list str)
    (encs : list encoding) : list dict :=
  match encs with
  | [] => []
  | enc :: encs' =>
      match ending (open_as f enc) with
      | None => []
      | Some e =>
          match exn_class_of e with
          | UnicodeDecodeError =>
              records_of_lines f keywords (lines (open_as f enc))
                ++ abandoned_records f keywords encs'
          | _ => []
          end
      end
  end.

(** What one file, scanned alone, gives. *)
Definition contribution (keywords : list str) (f : file) : list dict :=
  match search_keywords_in_file f keywords with
  | Return results => results
  | Raise _ => []
  end.

(** A keyword, in lower case, occurs in the URL in lower case. *)
Definition keyword_occurs (keywords : list str) (url : str) : Prop :=
  exists keyword before after,
    In keyword keywords /\ lower url = before ++ lower keyword ++ after.

(** A file that is longer than one chunk of 8192 bytes: the first chunk
    decodes as UTF-8 and holds a credential line, and there is a byte
    0xFF further on.  The UTF-8 attempt gives the first line and then
    the decode error; the ISO-8859-1 attempt gives all the lines. *)
Definition late_bad_byte : file :=
  File (py "dump.txt")
    (fun enc =>
       match enc with
       | utf_8 =>
           Reading [py "https://example.com/login:alice:secret" ++ [Chr "010"]]
             (Some (Exn UnicodeDecodeError
                      (py "'utf-8' codec can't decode byte 0xff")))
       | _ =>
           Reading [py "https://example.com/login:alice:secret" ++ [Chr "010"];
                    repeat (Chr "x") (82 * 100) ++ [Chr "010"];
                    [Chr "255"; Chr "010"]]
             None
       end).

(** ** Text of values *)

(** The decimal text of an [int]. *)
Definition str_of_int (n : Z) : str :=
  py (DecimalString.NilZero.string_of_int (Z.to_int n)).

(** [sys.get_int_max_str_digits()], as Python sets it. *)
Definition int_max_str_digits : nat := 4300.

(** The decimal text of [n] has no more digits than that. *)
Definition within_digits (n : Z) : bool :=
  Nat.leb (length (str_of_int (Z.abs n))) int_max_str_digits.

(** [str(n)] of an [int]: a [ValueError] above the limit on the
    digits. *)
Definition str_int (n : Z) : result str :=
  if within_digits n then Return (str_of_int n)
  else
    Raise (Exn ValueError
             (py "Exceeds the limit (4300 digits) for integer string conversion; use sys.set_int_max_str_digits() to increase the limit")).

(** [str(v)], as the f-string and the csv writer format a field. *)
Definition format_value (v : value) : result str :=
  match v with
  | VStr s => Return s
  | VInt n => str_int n
  end.

Definition quote : char := "034"%char.
Definition backslash : char := "092"%char.
Definition newline : char := "010"%char.
Definition carriage_return : char := "013"%char.

Definition hex_digit (n : N) : char :=
  if (n <? 10)%N then ascii_of_N (48 + n) else ascii_of_N (87 + n).

(** [sep.join(items)] *)
Fixpoint join {A : Type} (sep : list A) (items : list (list A)) : list A :=
  match items with
  | [] => []
  | [x] => x
  | x :: rest => x ++ sep ++ join sep rest
  end.

(** ** Writing to a file opened with [encoding='utf-8']

    [f.write(text)] encodes [text] before anything of it reaches the
    file.  A surrogate cannot be encoded: the codec raises
    [UnicodeEncodeError] for the first run of surrogates, and nothing
    of [text] is written. *)

Definition is_lone (c : char) : bool :=
  match c with
  | Lone _ => true
  | Chr _ => false
  end.

(** The surrogates at the start of [s]. *)
Fixpoint lone_run (s : str) : nat :=
  match s with
  | c :: s' => if is_lone c then S (lone_run s') else 0
  | [] => 0
  end.

(** [str(e)] of the [UnicodeEncodeError] for the surrogates that start
    at [position] with [b] and go on for [more] characters. *)
Definition encode_error_text (position : nat) (b : ascii) (more : nat)
    : str :=
  match more with
  | O =>
      py "'utf-8' codec can't encode character '\udc"
        ++ [hex_digit (N_of_ascii b / 16); hex_digit (N_of_ascii b mod 16)]
        ++ py "' in position " ++ str_of_int (Z.of_nat position)
        ++ py ": surrogates not allowed"
  | S _ =>
      py "'utf-8' codec can't encode characters in position "
        ++ str_of_int (Z.of_nat position) ++ py "-"
        ++ str_of_int (Z.of_nat (position + more))
        ++ py ": surrogates not allowed"
  end.

Fixpoint encode_error_from (position : nat) (text : str) : option exn :=
  match text with
  | [] => None
  | Chr _ :: text' => encode_error_from (S position) text'
  | Lone b :: text' =>
      Some (Exn UnicodeEncodeError
              (encode_error_text position b (lone_run text')))
  end.

(** The exception that [f.write(text)] raises, if it does. *)
Definition encode_error (text : str) : option exn :=
  encode_error_from 0 text.

(** ** json.dump(search_results, f, ensure_ascii=False, indent=4) *)

(** The escapes of the encoder without [ensure_ascii]: the quote, the
    backslash and the control characters; every other character is
    written as it is. *)
Definition json_escape (c : char) : str :=
  if char_eqb c quote then [backslash; quote]
  else if char_eqb c backslash then [backslash; backslash]
  else if char_eqb c newline then [backslash; Chr "n"]
  else if char_eqb c carriage_return then [backslash; Chr "r"]
  else if char_eqb c "009"%char then [backslash; Chr "t"]
  else if char_eqb c "008"%char then [backslash; Chr "b"]
  else if char_eqb c "012"%char then [backslash; Chr "f"]
  else if (code c <? 32)%N then
    [backslash; Chr "u"; Chr "0"; Chr "0";
     hex_digit (code c / 16); hex_digit (code c mod 16)]
  else [c].

Definition json_string (s : str) : str :=
  quote :: flat_map json_escape s ++ [quote].

Definition json_value (v : value) : str :=
  match v with
  | VStr s => json_string s
  | VInt n => str_of_int n
  end.

(** A new line and the indentation of a level. *)
Definition json_newline (level : nat) : str :=
  newline :: repeat (Chr " ") (4 * level).

Definition json_member (kv : string * value) : str :=
  json_string (py (fst kv)) ++ py ": " ++ json_value (snd kv).

Definition json_dict (level : nat) (d : dict) : str :=
  match d with
  | [] => py "{}"
  | _ =>
      py "{" ++ json_newline (S level)
        ++ join (py "," ++ json_newline (S level)) (map json_member d)
        ++ json_newline level ++ py "}"
  end.

(** The whole document: what the file holds when every piece of it has
    been written. *)
Definition json_dump (search_results : list dict) : str :=
  match search_results with
  | [] => py "[]"
  | _ =>
      py "[" ++ json_newline 1
        ++ join (py "," ++ json_newline 1) (map (json_dict 1) search_results)
        ++ json_newline 0 ++ py "]"
  end.

(** [json.dump] writes the document piece by piece, one [f.write] for
    each piece that the encoder yields: the brackets with their
    indentation, each key, each [": "], each value.  The text of an
    [int] is one of the pieces, and making it can raise. *)
Definition json_value_chunk (v : value) : result str :=
  match v with
  | VStr s => Return (json_string s)
  | VInt n => str_int n
  end.

Fixpoint member_chunks (level : nat) (first : bool) (d : dict)
    : list (result str) :=
  match d with
  | [] => []
  | (key, v) :: d' =>
      (if first then [] else [Return (py "," ++ json_newline level)])
        ++ [Return (json_string (py key)); Return (py ": ");
            json_value_chunk v]
        ++ member_chunks level false d'
  end.

Definition dict_chunks (level : nat) (d : dict) : list (result str) :=
  match d with
  | [] => [Return (py "{}")]
  | _ =>
      [Return (py "{"); Return (json_newline (S level))]
        ++ member_chunks (S level) true d
        ++ [Return (json_newline level); Return (py "}")]
  end.

Fixpoint item_chunks (first : bool) (search_results : list dict)
    : list (result str) :=
  match search_results with
  | [] => []
  | d :: rest =>
      Return ((if first then py "[" else py ",") ++ json_newline 1)
        :: dict_chunks 1 d ++ item_chunks false rest
  end.

Definition json_chunks (search_results : list dict) : list (result str) :=
  match search_results with
  | [] => [Return (py "[]")]
  | _ =>
      item_chunks true search_results
        ++ [Return (json_newline 0); Return (py "]")]
  end.

(** The loop [for chunk in iterable: fp.write(chunk)] of [json.dump]:
    the text written so far, and the exception that stopped the loop,
    if any. *)
Fixpoint write_chunks (chunks : list (result str)) (written : str)
    : str * option exn :=
  match chunks with
  | [] => (written, None)
  | Raise e :: _ => (written, Some e)
  | Return text :: rest =>
      match encode_error text with
      | Some e => (written, Some e)
      | None => write_chunks rest (written ++ text)
      end
  end.

(** ** The csv and the txt output *)

Definition fieldnames : list string :=
  ["url"; "username"; "password"; "source"; "line"]%string.

(** A field of a csv row: the text of the value of the key, or the
    empty [restval]. *)
Definition csv_field (d : dict) (key : string) : result str :=
  match get key d with
  | Some v => format_value v
  | None => Return []
  end.

Fixpoint csv_fields (d : dict) (names : list string)
    : result (list str) :=
  match names with
  | [] => Return []
  | key :: names' =>
      field <- csv_field d key ;;
      fields <- csv_fields d names' ;;
      Return (field :: fields)
  end.

(** The keys of the dict that are no field names. *)
Definition wrong_fields (d : dict) : list string :=
  filter (fun key => negb (existsb (String.eqb key) fieldnames)) (keys d).

(** The fields of the row that [writer.writerow(result)] of a
    [csv.DictWriter] with these [fieldnames] writes, in the order of
    [fieldnames]; a key that is not a field name is a [ValueError].
    Its text lists the [repr] of the offending keys, here for keys that
    [repr] leaves as they are, and in the order of the dict (Python
    lists them in the order of a set, which is this one when there is
    one such key). *)
Definition csv_row (d : dict) : result (list str) :=
  match wrong_fields d with
  | [] => csv_fields d fieldnames
  | wrong =>
      Raise (Exn ValueError
               (py "dict contains fields not in fieldnames: "
                  ++ join (py ", ")
                       (map (fun key => py "'" ++ py key ++ py "'") wrong)))
  end.

(** The line of a row in the file, in the dialect of [csv.writer]: a
    field that holds a comma, a quote or a line end is put in quotes,
    with its quotes doubled; the fields are joined by commas and the
    line ends in CR LF. *)
Definition csv_special (c : char) : bool :=
  char_eqb c ","%char || char_eqb c quote
  || char_eqb c carriage_return || char_eqb c newline.

Definition csv_quoted (field : str) : str :=
  if existsb csv_special field
  then
    quote
      :: flat_map (fun c => if char_eqb c quote then [quote; quote] else [c])
           field
      ++ [quote]
  else field.

Definition csv_line (row : list str) : str :=
  join (py ",") (map csv_quoted row) ++ [carriage_return; newline].

(** [result[key]] *)
Definition item (d : dict) (key : string) : result value :=
  match get key d with
  | Some v => Return v
  | None => Raise (Exn KeyError (py "'" ++ py key ++ py "'"))
  end.

(** A replacement field [{result[key]}] of the f-string. *)
Definition txt_field (d : dict) (key : string) : result str :=
  v <- item d key ;; format_value v.

(** The f-string of lines 92 to 94, its fields from left to right. *)
Definition txt_line (d : dict) : result str :=
  url <- txt_field d "url" ;;
  username <- txt_field d "username" ;;
  password <- txt_field d "password" ;;
  source <- txt_field d "source" ;;
  line <- txt_field d "line" ;;
  Return (py "URL: " ++ url
          ++ py ", Username: " ++ username
          ++ py ", Password: " ++ password
          ++ py ", Source: " ++ source
          ++ py ", Line: " ++ line ++ [newline]).

(** What is in the output file: the text of a json or txt file, the
    rows of a csv file (a row is the list of its fields, and the file
    holds the [csv_line] of each row), or what a write that the system
    refused has left, which the model does not describe. *)
Inductive content : Type :=
| JsonText (text : str)
| CsvRows (rows : list (list str))
| TxtText (text : str)
| Torn.

(** The loop of lines 84 to 86: the rows written so far, and the
    exception that stopped the loop, if any. *)
Fixpoint csv_rows (search_results : list dict) (written : list (list str))
    : list (list str) * option exn :=
  match search_results with
  | [] => (written, None)
  | result :: rest =>
      if negb (has_key "error" result) then
        match csv_row result with
        | Return row =>
            match encode_error (csv_line row) with
            | None => csv_rows rest (written ++ [row])
            | Some e => (written, Some e)
            end
        | Raise e => (written, Some e)
        end
      else csv_rows rest written
  end.

(** The loop of lines 89 to 95. *)
Fixpoint txt_lines (search_results : list dict) (written : str)
    : str * option exn :=
  match search_results with
  | [] => (written, None)
  | result :: rest =>
      if negb (has_key "error" result) then
        match txt_line result with
        | Return line =>
            match encode_error line with
            | None => txt_lines rest (written ++ line)
            | Some e => (written, Some e)
            end
        | Raise e => (written, Some e)
        end
      else txt_lines rest written
  end.

(** What [save_results] leaves: the output file ([None] when it was not
    opened) and what was printed. *)
Record saved : Type := Saved {
  output_file : option content;
  printed : list str
}.

(** The two [except] clauses of [save_results], lines 98 to 103. *)
Definition save_handlers (e : exn) : list str :=
  if caught_by ExceptIOError e then
    [py "An I/O error occurred while saving the results: " ++ exn_text e]
  else
    [py "An error occurred while saving the results: " ++ exn_text e].

(** [save_results], lines 74 to 103.  [open_error] is the [OSError] that
    opening the output file for writing raises, if it does;
    [write_error] is the [OSError] that the system raises at a write,
    at a flush or when the file is closed, if it does: it is then the
    exception that leaves the [with] block, whatever the block was
    doing. *)
Definition save_results (open_error write_error : option str)
    (search_results : list dict) (output_format : str) : saved :=
  let opened (c : content) (raised : option exn) : saved :=
    match open_error, write_error with
    | Some text, _ => Saved None (save_handlers (Exn OSError text))
    | None, Some text =>
        Saved (Some Torn) (save_handlers (Exn OSError text))
    | None, None =>
        match raised with
        | None => Saved (Some c) []
        | Some e => Saved (Some c) (save_handlers e)
        end
    end in
  if list_eq_dec char_dec output_format (py "json") then
    let (text, raised) := write_chunks (json_chunks search_results) [] in
    opened (JsonText text) raised
  else if list_eq_dec char_dec output_format (py "csv") then
    let (rows, raised) :=
      csv_rows search_results
        [map (fun key => py key) fieldnames] in
    opened (CsvRows rows) raised
  else if list_eq_dec char_dec output_format (py "txt") then
    let (text, raised) := txt_lines search_results [] in
    opened (TxtText text) raised
  else
    Saved None
      (save_handlers
         (Exn ValueError
            (py "Unsupported output format. Choose 'json', 'csv', or 'txt'."))).

(** ** Reading json back

    [json.loads] on the documents of this program: an array of objects
    whose keys are strings of the code points 0..255 and whose values
    are strings and integers.  A lexer, one character at a time, and a
    parser over the tokens. *)

Inductive token : Type :=
| TLBracket | TRBracket | TLBrace | TRBrace | TColon | TComma
| TString (s : str)
| TInt (n : Z).

(** The text as a string of code points 0..255, when it holds no
    surrogate. *)
Fixpoint latin (s : str) : option string :=
  match s with
  | [] => Some EmptyString
  | Chr c :: s' => option_map (String c) (latin s')
  | Lone _ :: _ => None
  end.

(** The integers of json: an optional minus sign, then a zero or digits
    that do not start with a zero. *)
Definition int_of_str (s : str) : option Z :=
  if list_eq_dec char_dec s (py "-0") then Some 0%Z
  else
    match latin s with
    | Some text =>
        match DecimalString.NilZero.int_of_string text with
        | Some d =>
            if list_eq_dec char_dec (str_of_int (Z.of_int d)) s
            then Some (Z.of_int d) else None
        | None => None
        end
    | None => None
    end.

Definition hex_value (c : char) : option N :=
  if in_range 48 57 c then Some (code c - 48)%N
  else if in_range 97 102 c then Some (code c - 87)%N
  else if in_range 65 70 c then Some (code c - 55)%N
  else None.

(** The states of the lexer; the text read so far is kept reversed. *)
Inductive lex_state : Type :=
| Idle
| InString (acc : str)
| InEscape (acc : str)
| InUnicode (acc : str) (hex : list N)
| InNumber (acc : str).

Definition json_space (c : char) : bool :=
  char_eqb c " "%char || char_eqb c newline
  || char_eqb c carriage_return || char_eqb c "009"%char.

(** A character between two tokens: the tokens it gives and the state
    it leaves. *)
Definition idle_step (c : char) : option (list token * lex_state) :=
  if json_space c then Some ([], Idle)
  else if char_eqb c "["%char then Some ([TLBracket], Idle)
  else if char_eqb c "]"%char then Some ([TRBracket], Idle)
  else if char_eqb c "{"%char then Some ([TLBrace], Idle)
  else if char_eqb c "}"%char then Some ([TRBrace], Idle)
  else if char_eqb c ":"%char then Some ([TColon], Idle)
  else if char_eqb c ","%char then Some ([TComma], Idle)
  else if char_eqb c quote then Some ([], InString [])
  else if char_eqb c "-"%char || is_digit c then Some ([], InNumber [c])
  else None.

(** The character that a one-letter escape stands for. *)
Definition unescape (c : char) : option char :=
  if char_eqb c quote then Some quote
  else if char_eqb c backslash then Some backslash
  else if char_eqb c "/"%char then Some (Chr "/")
  else if char_eqb c "b"%char then Some (Chr "008")
  else if char_eqb c "f"%char then Some (Chr "012")
  else if char_eqb c "n"%char then Some newline
  else if char_eqb c "r"%char then Some carriage_return
  else if char_eqb c "t"%char then Some (Chr "009")
  else None.

Definition hex_code (hex : list N) : N :=
  fold_left (fun n d => (16 * n + d)%N) hex 0%N.

Fixpoint lex (st : lex_state) (s : str) : option (list token) :=
  match s with
  | [] =>
      match st with
      | Idle => Some []
      | InNumber acc => option_map (fun n => [TInt n]) (int_of_str (rev acc))
      | _ => None
      end
  | c :: rest =>
      match st with
      | Idle =>
          match idle_step c with
          | Some (ts, st') => option_map (app ts) (lex st' rest)
          | None => None
          end
      | InString acc =>
          if char_eqb c quote then
            option_map (cons (TString (rev acc))) (lex Idle rest)
          else if char_eqb c backslash then lex (InEscape acc) rest
          else if (code c <? 32)%N then None
          else lex (InString (c :: acc)) rest
      | InEscape acc =>
          if char_eqb c "u"%char then lex (InUnicode acc []) rest
          else
            match unescape c with
            | Some x => lex (InString (x :: acc)) rest
            | None => None
            end
      | InUnicode acc hex =>
          match hex_value c with
          | Some d =>
              let hex' := hex ++ [d] in
              if Nat.eqb (length hex') 4 then
                if (hex_code hex' <? 256)%N
                then lex (InString (Chr (ascii_of_N (hex_code hex')) :: acc)) rest
                else None
              else lex (InUnicode acc hex') rest
          | None => None
          end
      | InNumber acc =>
          if is_digit c then lex (InNumber (c :: acc)) rest
          else
            match int_of_str (rev acc), idle_step c with
            | Some n, Some (ts, st') =>
                option_map (fun r => TInt n :: ts ++ r) (lex st' rest)
            | _, _ => None
            end
      end
  end.

(** [d[key] = v]: the value of a key that is there is replaced, a new
    key goes to the end. *)
Fixpoint set_item (key : string) (v : value) (d : dict) : dict :=
  match d with
  | [] => [(key, v)]
  | (k, x) :: d' =>
      if String.eqb key k then (k, v) :: d'
      else (k, x) :: set_item key v d'
  end.

(** Where the parser is: before the array, in the array before or after
    an object, in an object (with the members read so far) before a key,
    a colon, a value or the end of a member, and after the array. *)
Inductive parse_state : Type :=
| AtStart
| AtFirstItem
| AtItem
| AfterItem
| AtFirstKey
| AtKey (d : dict)
| AtColon (d : dict) (key : string)
| AtValue (d : dict) (key : string)
| AfterMember (d : dict)
| AtEnd.

Fixpoint parse (st : parse_state) (items : list dict) (ts : list token)
    : option (list dict) :=
  match ts with
  | [] =>
      match st with
      | AtEnd => Some items
      | _ => None
      end
  | t :: rest =>
      match st, t with
      | AtStart, TLBracket => parse AtFirstItem items rest
      | AtFirstItem, TRBracket => parse AtEnd items rest
      | AtFirstItem, TLBrace => parse AtFirstKey items rest
      | AtItem, TLBrace => parse AtFirstKey items rest
      | AfterItem, TComma => parse AtItem items rest
      | AfterItem, TRBracket => parse AtEnd items rest
      | AtFirstKey, TRBrace => parse AfterItem (items ++ [[]]) rest
      | AtFirstKey, TString key =>
          match latin key with
          | Some k => parse (AtColon [] k) items rest
          | None => None
          end
      | AtKey d, TString key =>
          match latin key with
          | Some k => parse (AtColon d k) items rest
          | None => None
          end
      | AtColon d key, TColon => parse (AtValue d key) items rest
      | AtValue d key, TString s =>
          parse (AfterMember (set_item key (VStr s) d)) items rest
      | AtValue d key, TInt n =>
          parse (AfterMember (set_item key (VInt n) d)) items rest
      | AfterMember d, TComma => parse (AtKey d) items rest
      | AfterMember d, TRBrace => parse AfterItem (items ++ [d]) rest
      | _, _ => None
      end
  end.

(** [json.loads(text)] *)
Definition json_loads (text : str) : option (list dict) :=
  match lex Idle text with
  | Some ts => parse AtStart [] ts
  | None => None
  end.

(** ** main *)

(** The paths that [main] prints are kept to the code points 0..255:
    [print] to a terminal that is UTF-8 raises on a surrogate, which is
    not part of the model. *)
Definition printable : Type := list ascii.

Definition shown (s : printable) : str := map Chr s.

(** The arguments of the command line that [main] uses. *)
Record args : Type := Args {
  path_argument : printable;      (** [args.path] *)
  arg_keywords : list str;
  arg_output : str
}.

Definition arg_path (a : args) : str := shown (path_argument a).

(** What the file system and the terminal answer to [main]. *)
Record world : Type := World {
  resolved_output : printable;    (** [str(output_path)], resolved *)
  output_exists : bool;
  output_is_dir : bool;
  resolved_parent : printable;    (** [str(output_path.parent)] *)
  output_parent_exists : bool;
  output_suffix : str;            (** [output_path.suffix] *)
  answers : list str;             (** what [input] returns, call after call *)
  path_is_file : bool;
  path_suffix : str;
  path_is_dir : bool;
  path_file : file;               (** the file at the path *)
  rglob_txt : list file;          (** [path.rglob] of the text files *)
  open_error : option str;        (** opening the output file fails *)
  write_error : option str        (** writing to it or closing it fails *)
}.

Definition output_path (w : world) : str := shown (resolved_output w).

Definition output_parent (w : world) : str := shown (resolved_parent w).

(** [s.strip()] *)
Fixpoint lstrip (s : str) : str :=
  match s with
  | c :: s' => if is_space c then lstrip s' else s
  | [] => []
  end.

Definition strip (s : str) : str := rev (lstrip (rev (lstrip s))).

(** [s.lstrip('.')] *)
Fixpoint lstrip_dots (s : str) : str :=
  match s with
  | c :: s' => if char_eqb c "."%char then lstrip_dots s' else s
  | [] => []
  end.

(** How [validate_output_path] ends: it returns, it raises, or the user
    cancels and [sys.exit(0)] is called. *)
Inductive validation : Type :=
| Valid
| Invalid (e : exn)
| Cancelled.

(** The loop of lines 136 to 144, with what it prints.  When [input]
    has nothing more to return it raises [EOFError]. *)
Fixpoint confirm_overwrite (inputs : list str) (out : list str)
    : validation * list str :=
  match inputs with
  | [] => (Invalid (Exn EOFError (py "EOF when reading a line")), out)
  | answer :: inputs' =>
      let response := lower (strip answer) in
      if list_eq_dec char_dec response (py "y") then (Valid, out)
      else if list_eq_dec char_dec response (py "n") then
        (Cancelled, out ++ [py "Operation cancelled by the user."])
      else
        confirm_overwrite inputs'
          (out ++ [py "Please respond with 'y' or 'n'."])
  end.

(** [validate_output_path], lines 130 to 149. *)
Definition validate_output_path (w : world) : validation * list str :=
  if output_exists w then
    if output_is_dir w then
      (Invalid (Exn ValueError
                  (py "The output path '" ++ output_path w
                     ++ py "' is a directory.")), [])
    else confirm_overwrite (answers w) []
  else if negb (output_parent_exists w) then
    (Invalid (Exn ValueError
                (py "The directory '" ++ output_parent w
                   ++ py "' does not exist.")), [])
  else (Valid, []).

(** How the process ends: [main] returns, [sys.exit] is called, or an
    exception reaches the top. *)
Inductive status : Type :=
| Finished
| Exited (code : Z)
| Crashed (e : exn).

(** A run of [main]: what it printed, the files the scan went over,
    what [save_results] did if it was called, and how the run ended. *)
Record execution : Type := Execution {
  stdout : list str;
  scanned : list file;
  saving : option saved;
  ended : status
}.

Definition supported_format (output_format : str) : bool :=
  if list_eq_dec char_dec output_format (py "json") then true
  else if list_eq_dec char_dec output_format (py "csv") then true
  else if list_eq_dec char_dec output_format (py "txt") then true
  else false.

(** [main], lines 155 to 194 (the banner and the progress bar are not
    part of the model). *)
Definition main (w : world) (a : args) : execution :=
  match validate_output_path w with
  | (Cancelled, out) => Execution out [] None (Exited 0)
  | (Invalid e, out) =>
      if caught_by ExceptValueError e
      then Execution (out ++ [py "Error: " ++ exn_text e]) [] None (Exited 1)
      else Execution out [] None (Crashed e)
  | (Valid, out) =>
      let output_format := lower (lstrip_dots (output_suffix w)) in
      if negb (supported_format output_format) then
        Execution (out ++ [py "Unsupported output format. Choose 'json', 'csv', or 'txt'."])
            [] None (Exited 1)
      else
        let discovered : option (list file) :=
          if path_is_file w
             && (if list_eq_dec char_dec (path_suffix w) (py ".txt")
                 then true else false)
          then Some [path_file w]
          else if path_is_dir w then Some (rglob_txt w)
          else None in
        match discovered with
        | None =>
            Execution (out ++ [py "The path '" ++ arg_path a
                           ++ py "' is neither a .txt file nor a directory."])
                [] None (Exited 1)
        | Some [] =>
            Execution (out ++ [py "No .txt files found to process."])
                [] None (Exited 0)
        | Some txt_files =>
            match scan_files txt_files (arg_keywords a) [] with
            | Raise e => Execution out txt_files None (Crashed e)
            | Return all_search_results =>
                let s := save_results (open_error w) (write_error w)
                           all_search_results output_format in
                Execution (out ++ printed s
                       ++ [py "Search results have been saved to '"
                             ++ output_path w ++ py "'"])
                    txt_files (Some s) Finished
            end
        end
  end.

(** The tokens of the text that [json_dump] writes. *)
Definition value_token (v : value) : token :=
  match v with
  | VStr s => TString s
  | VInt n => TInt n
  end.

Definition member_tokens (kv : string * value) : list token :=
  [TString (py (fst kv)); TColon; value_token (snd kv)].

Definition dict_tokens (d : dict) : list token :=
  TLBrace :: join [TComma] (map member_tokens d) ++ [TRBrace].

Definition dump_tokens (search_results : list dict) : list token :=
  TLBracket :: join [TComma] (map dict_tokens search_results)
    ++ [TRBracket].

(** The lexer reads [text] as the tokens [ts], whatever follows, or
    provided that no digit follows. *)
Definition lexes_any (text : str) (ts : list token) : Prop :=
  forall more,
    lex Idle (text ++ more) = option_map (app ts) (lex Idle more).

Definition lexes (text : str) (ts : list token) : Prop :=
  forall more, stops is_digit more = true ->
    lex Idle (text ++ more) = option_map (app ts) (lex Idle more).

(** ** The words of the specification about the output *)

(** The header row of the csv output. *)
Definition csv_header : list str :=
  [py "url"; py "username"; py "password"; py "source"; py "line"].

(** The data row of a match record. *)
Definition record_row (r : record) : list str :=
  match r with
  | MatchRecord url username password source line =>
      [url; username; password; source; str_of_int line]
  | ErrorRecord _ _ => []
  end.

(** The line of a match record in the txt output. *)
Definition record_line (r : record) : str :=
  match r with
  | MatchRecord url username password source line =>
      py "URL: " ++ url ++ py ", Username: " ++ username
        ++ py ", Password: " ++ password ++ py ", Source: " ++ source
        ++ py ", Line: " ++ str_of_int line ++ [newline]
  | ErrorRecord _ _ => []
  end.

Definition unsupported_message : str :=
  py "Unsupported output format. Choose 'json', 'csv', or 'txt'.".

(** A text that UTF-8 can hold: there is no surrogate in it. *)
Definition encodable (s : str) : bool :=
  forallb (fun c => negb (is_lone c)) s.

(** A value that the writers can put in the file: a string that UTF-8
    can hold, an integer within the limit on the digits. *)
Definition writable_value (v : value) : bool :=
  match v with
  | VStr s => encodable s
  | VInt n => within_digits n
  end.

Definition writable_dict (d : dict) : bool :=
  forallb (fun kv => writable_value (snd kv)) d.

(** A record that can be written. *)
Definition writable (r : record) : bool :=
  match r with
  | MatchRecord url username password source line =>
      encodable url && encodable username && encodable password
      && encodable source && within_digits line
  | ErrorRecord error source => encodable error && encodable source
  end.

(** A dict whose integers are within the limit on the digits. *)
Definition formattable (d : dict) : bool :=
  forallb (fun kv => match snd kv with
                     | VStr _ => true
                     | VInt n => within_digits n
                     end) d.

(** The loop of [json.dump] over [chunks] writes [text] and ends. *)
Definition writes (chunks : list (result str)) (text : str) : Prop :=
  forall written, write_chunks chunks written = (written ++ text, None).


(** Files for examples: one with two credential lines and a line
    without, which decodes as UTF-8, and one that cannot be opened. *)
Definition plain_file (name : str) : file :=
  File name
    (fun _ =>
       Reading [py "https://example.com/a:ann:pw1" ++ [newline];
                py "nothing here" ++ [newline];
                py "http://other.org:8080/x:bob:pw2" ++ [newline]]
         None).

Definition unreadable_file (name : str) : file :=
  File name
    (fun _ => Reading [] (Some (Exn OSError (py "Permission denied")))).

(** A file name with a byte that is not UTF-8, as [os.fsdecode] gives
    it for the bytes [dir/\xff.txt]. *)
Definition escaped_name : str := py "dir/" ++ [Lone "255"] ++ py ".txt".

(** What the scan of three files for the keyword [example] gives: a
    file with credentials, a file that cannot be read and a file with
    credentials whose name is [escaped_name]. *)
Definition escaped_files : list file :=
  [plain_file (py "a.txt"); unreadable_file (py "b.txt");
   plain_file escaped_name].

Definition escaped_scan : list record :=
  [MatchRecord (py "https://example.com/a") (py "ann") (py "pw1")
     (py "a.txt") 1;
   ErrorRecord (py "Error reading file with encoding utf-8") (py "b.txt");
   MatchRecord (py "https://example.com/a") (py "ann") (py "pw1")
     escaped_name 1].

(** A run for examples: the output [out.xml] does not exist yet, its
    directory does, and the path is a directory with two files. *)
Definition xml_world : world :=
  World (list_ascii_of_string "/work/out.xml") false false
        (list_ascii_of_string "/work") true (py ".xml") []
        false [] true (plain_file (py "unused.txt"))
        [plain_file (py "a.txt"); plain_file (py "b.txt")] None None.

Definition xml_args : args :=
  Args (list_ascii_of_string ".") [py "example"] (py "out.xml").

(** A regular expression without groups, and the least number of
    characters that it takes. *)
Fixpoint group_free (r : regex) : bool :=
  match r with
  | Lit _ | Many0 _ | Many1 _ => true
  | Cat r1 r2 => group_free r1 && group_free r2
  | Opt r' => group_free r'
  | Group _ _ => false
  end.

Fixpoint min_length (r : regex) : nat :=
  match r with
  | Lit _ | Many1 _ => 1
  | Many0 _ | Opt _ => 0
  | Cat r1 r2 => min_length r1 + min_length r2
  | Group _ r' => min_length r'
  end.

From Stdlib Require Import Sorted.

(** ** The grammar of the pattern, as a language *)

(** The texts that a regular expression matches as a whole, whatever
    the order in which the engine tries them. *)
Fixpoint denotes (r : regex) (m : str) : Prop :=
  match r with
  | Lit c => exists x, m = [x] /\ like c x = true
  | Many0 p => forallb p m = true
  | Many1 p => m <> [] /\ forallb p m = true
  | Cat r1 r2 =>
      exists m1 m2, m = m1 ++ m2 /\ denotes r1 m1 /\ denotes r2 m2
  | Opt r' => m = [] \/ denotes r' m
  | Group _ r' => denotes r' m
  end.

(** A URL of the pattern: [http] or [https] in any case, [://], a host,
    then a port or nothing, then a path or nothing. *)
Definition url_text (url : str) : Prop :=
  exists sch H port path,
    url = sch ++ py "://" ++ H ++ port ++ path
    /\ (lower sch = py "http" \/ lower sch = py "https")
    /\ H <> [] /\ forallb host_char H = true
    /\ (port = [] \/ exists P, port = colon :: P /\ P <> []
                               /\ forallb is_digit P = true)
    /\ (path = [] \/ exists p, path = slash :: p
                               /\ forallb path_char p = true).

(** A credential of the pattern: a URL, a colon, a username, a colon
    and a password. *)
Definition credential_text (m : str) : Prop :=
  exists url U PW,
    m = url ++ colon :: U ++ colon :: PW
    /\ url_text url
    /\ U <> [] /\ forallb user_char U = true
    /\ PW <> [] /\ forallb pass_char PW = true.

(** ** Lines and records *)

(** The line gives a record: a triple is extracted and a keyword is in
    its URL. *)
Definition line_hits (keywords : list str) (line : str) : bool :=
  match extract line with
  | Some (url, _, _) => keyword_hit keywords url
  | None => false
  end.

(** [d["line"]] of a match record. *)
Definition line_of (d : dict) : Z :=
  match get "line" d with
  | Some (VInt n) => n
  | _ => 0%Z
  end.

(** The attempt ended in a [UnicodeDecodeError]. *)
Definition is_decode_error (o : option exn) : bool :=
  match o with
  | Some e => caught_by ExceptUnicodeDecodeError e
  | None => false
  end.

(** What every record of the loop over the lines satisfies. *)
Definition good_record (source : str) (keywords : list str) (d : dict)
    : Prop :=
  exists url u pw n,
    d = match_record url u pw source n
    /\ (1 <= n)%Z /\ url_text url /\ u <> [] /\ pw <> []
    /\ keyword_occurs keywords url.


(** ** The overwrite question *)

(** An answer that is neither [y] nor [n] once stripped and put in
    lower case. *)
Definition undecided (answer : str) : bool :=
  let response := lower (strip answer) in
  (if list_eq_dec char_dec response (py "y") then false else true)
  && (if list_eq_dec char_dec response (py "n") then false else true).

Definition says_yes (answer : str) : bool :=
  if list_eq_dec char_dec (lower (strip answer)) (py "y")
  then true else false.

Definition reminder : str := py "Please respond with 'y' or 'n'.".

Definition io_error_message (text : str) : str :=
  py "An I/O error occurred while saving the results: " ++ text.

Definition other_error_message (text : str) : str :=
  py "An error occurred while saving the results: " ++ text.

Definition saved_message (w : world) : str :=
  py "Search results have been saved to '" ++ output_path w ++ py "'".

(** The files that [main] finds at the path, lines 170 to 177. *)
Definition found (w : world) : list file :=
  if path_is_file w
     && (if list_eq_dec char_dec (path_suffix w) (py ".txt")
         then true else false)
  then [path_file w]
  else if path_is_dir w then rglob_txt w
  else [].

(** A run for examples: the output [out.json] is new, the path is a
    directory with two files, and the output file cannot be opened. *)
Definition full_disk_world : world :=
  World (list_ascii_of_string "/work/out.json") false false
        (list_ascii_of_string "/work") true (py ".json") []
        false [] true (plain_file (py "unused.txt"))
        [plain_file (py "a.txt"); plain_file (py "b.txt")]
        (Some (py "No space left on device")) None.

(** The same run, but the file is opened and the disk is full when
    the text is written. *)
Definition full_disk_at_write : world :=
  World (list_ascii_of_string "/work/out.json") false false
        (list_ascii_of_string "/work") true (py ".json") []
        false [] true (plain_file (py "unused.txt"))
        [plain_file (py "a.txt"); plain_file (py "b.txt")]
        None (Some (py "[Errno 28] No space left on device")).

(** ** The banner

    The banner has box-drawing characters: its text is a list of code
    points. *)

Definition text : Type := list N.

Definition of_str (s : str) : text := map code s.

Definition blank : N := 32%N.
Definition line_feed : N := 10%N.

(** The five lines that [show_signature] joins, lines 24 to 30. *)
Definition signature_lines : list text :=
  [ 9556%N :: repeat 9552%N 40 ++ [9559%N];
    9553%N :: repeat blank 10 ++ of_str (py "Parsing Tools Extractor")
      ++ repeat blank 8 ++ [9553%N];
    9553%N :: repeat blank 16 ++ of_str (py "Credentials")
      ++ repeat blank 14 ++ [9553%N];
    9562%N :: repeat 9552%N 40 ++ [9565%N];
    repeat blank 7 ++ of_str (py "Developed by Rivaldo Fendy Wijaya")
      ++ repeat blank 6 ].

(** [s.split(sep)] with a separator of one character. *)
Fixpoint split (sep : N) (s : text) : list text :=
  match s with
  | [] => [[]]
  | c :: s' =>
      if N.eqb c sep then [] :: split sep s'
      else
        match split sep s' with
        | line :: rest => (c :: line) :: rest
        | [] => [[c]]
        end
  end.

(** [s.center(width)]: blanks on both sides, one more on the left when
    the margin and the width are both odd. *)
Definition center (width : nat) (s : text) : text :=
  if width <=? length s then s
  else
    let marg := width - length s in
    let left := Nat.div2 marg
                + (if Nat.odd marg && Nat.odd width then 1 else 0) in
    repeat blank left ++ s ++ repeat blank (marg - left).

(** [show_signature], lines 23 to 40: what is printed, given the width
    of the terminal, or [None] when [os.get_terminal_size] raises
    [OSError]. *)
Definition show_signature (terminal_width : option nat) : text :=
  let signature := join [line_feed] signature_lines in
  match terminal_width with
  | Some width =>
      let lines := split line_feed signature in
      join [line_feed] (map (center width) lines)
  | None => signature
  end.

(** A run for examples: [out.json] exists and the two answers to the
    question are not understood. *)
Definition mute_world : world :=
  World (list_ascii_of_string "/work/out.json") true false
        (list_ascii_of_string "/work") true (py ".json")
        [py "yes"; py "ok"]
        false [] true (plain_file (py "unused.txt"))
        [plain_file (py "a.txt")] None None.

(** A run for examples: the output path is a directory. *)
Definition directory_world : world :=
  World (list_ascii_of_string "/work/out.xml") true true
        (list_ascii_of_string "/work") true (py ".xml") []
        false [] true (plain_file (py "unused.txt"))
        [plain_file (py "a.txt")] None None.

(** * Properties *)

(** ** Characters *)

Lemma char_eqb_eq (x y : char) : char_eqb x y = true <-> x = y.
Proof.
  destruct x as [a | a], y as [b | b]; cbn [char_eqb];
    try (split; intros H; discriminate H).
  - rewrite Ascii.eqb_eq. split; [intros -> | intros [= ->]]; reflexivity.
  - rewrite Ascii.eqb_eq. split; [intros -> | intros [= ->]]; reflexivity.
Qed.

Lemma char_eqb_refl (x : char) : char_eqb x x = true.
Proof. apply char_eqb_eq. reflexivity. Qed.

Lemma char_eqb_neq (x y : char) : char_eqb x y = false <-> x <> y.
Proof.
  rewrite <- char_eqb_eq. destruct (char_eqb x y); split; congruence.
Qed.

Lemma latin_py (s : string) : latin (py s) = Some s.
Proof.
  induction s as [|c s IH]; [reflexivity|].
  cbn [py list_ascii_of_string map latin].
  unfold py in IH. rewrite IH. reflexivity.
Qed.

(** ** The matcher: repetitions *)

Section ManyLemmas.

Context {R : Type}.
Variable p : char -> bool.

Lemma many0_stop (rest : str) (k : str -> str -> option R) :
  stops p rest = true -> many0 p rest k = k [] rest.
Proof.
  destruct rest as [|c rest]; simpl; [reflexivity|].
  destruct (p c); [discriminate | reflexivity].
Qed.

(** Longest first: a success further on wins. *)
Lemma many0_deeper (a rest : str) (k : str -> str -> option R) (r : R) :
  forallb p a = true ->
  many0 p rest (fun m t => k (a ++ m) t) = Some r ->
  many0 p (a ++ rest) k = Some r.
Proof.
  revert k. induction a as [|c a IH]; intros k Ha Hk; simpl in *.
  - exact Hk.
  - apply andb_true_iff in Ha as [Hc Ha]. rewrite Hc.
    rewrite (IH (fun m t => k (c :: m) t) Ha Hk). reflexivity.
Qed.

Lemma many0_greedy (a rest : str) (k : str -> str -> option R) (r : R) :
  forallb p a = true -> stops p rest = true ->
  k a rest = Some r ->
  many0 p (a ++ rest) k = Some r.
Proof.
  intros Ha Hs Hk. apply many0_deeper; [exact Ha|].
  rewrite many0_stop by exact Hs. rewrite app_nil_r. exact Hk.
Qed.

Lemma many1_greedy (a rest : str) (k : str -> str -> option R) (r : R) :
  a <> [] -> forallb p a = true -> stops p rest = true ->
  k a rest = Some r ->
  many1 p (a ++ rest) k = Some r.
Proof.
  intros Hne Ha Hs Hk. destruct a as [|c a]; [congruence|].
  simpl in *. apply andb_true_iff in Ha as [Hc Ha]. rewrite Hc.
  apply many0_greedy; assumption.
Qed.

(** Backtracking inside a run of characters on which the continuation
    fails gives nothing: the repetition behaves as if it had to take
    the whole run. *)
Lemma many0_through (q : char -> bool) (a rest : str)
    (k : str -> str -> option R) :
  forallb p a = true -> forallb (fun c => negb (q c)) a = true ->
  needs q k ->
  many0 p (a ++ rest) k = many0 p rest (fun m t => k (a ++ m) t).
Proof.
  revert k. induction a as [|c a IH]; intros k Ha Hq Hk; simpl in *.
  - reflexivity.
  - apply andb_true_iff in Ha as [Hc Ha].
    apply andb_true_iff in Hq as [Hqc Hq]. rewrite Hc.
    rewrite (IH (fun m t => k (c :: m) t) Ha Hq).
    + destruct (many0 p rest _); [reflexivity|].
      apply Hk. exact Hqc.
    + intros m t Ht. apply Hk. exact Ht.
Qed.

(** A run on which the continuation fails, up to a place where both
    the repetition and the continuation stop: no match. *)
Lemma many0_through_none (q : char -> bool) (a rest : str)
    (k : str -> str -> option R) :
  forallb p a = true -> forallb (fun c => negb (q c)) a = true ->
  needs q k -> stops p rest = true -> stops q rest = true ->
  many0 p (a ++ rest) k = None.
Proof.
  intros Ha Hq Hk Hp Hr.
  rewrite (many0_through q) by assumption.
  rewrite many0_stop by assumption. apply Hk. exact Hr.
Qed.

Lemma many1_through_none (q : char -> bool) (a rest : str)
    (k : str -> str -> option R) :
  forallb p a = true -> forallb (fun c => negb (q c)) a = true ->
  needs q k -> stops p rest = true -> stops q rest = true ->
  many1 p (a ++ rest) k = None.
Proof.
  intros Ha Hq Hk Hp Hr. destruct a as [|c a]; simpl in *.
  - destruct rest as [|x rest]; [reflexivity|]. simpl in Hp |- *.
    destruct (p x); [discriminate | reflexivity].
  - apply andb_true_iff in Ha as [Hc Ha].
    apply andb_true_iff in Hq as [Hqc Hq]. rewrite Hc.
    apply (many0_through_none q); try assumption.
    intros m t Ht. apply Hk. exact Ht.
Qed.

End ManyLemmas.

(** ** The matcher: literals and the tail of the pattern *)

Lemma like_colon (x : char) : like colon x = char_eqb x colon.
Proof.
  destruct x as [[[] [] [] [] [] [] [] []] | [[] [] [] [] [] [] [] []]]; reflexivity.
Qed.

Lemma like_slash (x : char) : like slash x = char_eqb x slash.
Proof.
  destruct x as [[[] [] [] [] [] [] [] []] | [[] [] [] [] [] [] [] []]]; reflexivity.
Qed.

Lemma run_lit_needs {R : Type} (c : char) (r : regex) (g : groups)
    (k : str -> str -> groups -> option R) :
  needs (like c) (fun (_ : str) t => run (Cat (Lit c) r) t g k).
Proof.
  intros _ [|x t] Ht; simpl in *; [reflexivity|].
  unfold like in Ht. destruct (char_eqb _ _); [discriminate | reflexivity].
Qed.

Lemma user_char_not_colon (a : str) :
  forallb user_char a = true ->
  forallb (fun c => negb (like colon c)) a = true.
Proof.
  intros H. rewrite forallb_forall in *. intros c Hc. specialize (H c Hc).
  rewrite like_colon. unfold user_char in H.
  destruct (char_eqb c colon); [discriminate | reflexivity].
Qed.

Lemma user_char_pass (a : str) :
  forallb user_char a = true -> forallb pass_char a = true.
Proof.
  intros H. rewrite forallb_forall in *. intros c Hc. specialize (H c Hc).
  unfold user_char, pass_char in *.
  destruct (char_eqb c colon), (char_eqb c slash), (is_space c);
    simpl in *; congruence.
Qed.

Lemma user_char_path (a : str) :
  forallb user_char a = true -> forallb path_char a = true.
Proof.
  intros H. rewrite forallb_forall in *. intros c Hc. specialize (H c Hc).
  unfold user_char, path_char in *.
  destruct (char_eqb c colon), (char_eqb c slash), (is_space c);
    simpl in *; congruence.
Qed.

Lemma ends_token_stops (post : str) :
  ends_token post = true ->
  stops path_char post = true /\ stops pass_char post = true
  /\ stops user_char post = true /\ stops (like colon) post = true
  /\ stops (like slash) post = true /\ stops is_digit post = true.
Proof.
  destruct post as [|c post]; simpl; [repeat split|].
  intros H. unfold path_char, pass_char, user_char.
  rewrite like_colon, like_slash, H.
  destruct c as [[[] [] [] [] [] [] [] []] | [[] [] [] [] [] [] [] []]]; try discriminate H;
    repeat split.
Qed.

(** The tail [:user:password] matches, the password running to the
    place where its class stops. *)
Lemma tail_match {R : Type} (U PW post : str) (g : groups)
    (k : str -> str -> groups -> option R) (r : R) :
  U <> [] -> forallb user_char U = true ->
  PW <> [] -> forallb pass_char PW = true ->
  stops pass_char post = true ->
  k (colon :: U ++ colon :: PW) post (set_group 3 PW (set_group 2 U g)) = Some r ->
  run tail_regex (colon :: U ++ colon :: PW ++ post) g k = Some r.
Proof.
  intros HU1 HU2 HP1 HP2 Hpost Hk.
  unfold tail_regex. cbn [run].
  replace (char_eqb (lower_char colon) (lower_char colon)) with true
    by reflexivity.
  apply many1_greedy; try assumption; [reflexivity|].
  replace (char_eqb (lower_char colon) (lower_char colon)) with true
    by reflexivity.
  apply many1_greedy; try assumption.
Qed.

Lemma tail_needs {R : Type} (g : groups)
    (k : str -> str -> groups -> option R) (t : str) :
  stops (like colon) t = true -> run tail_regex t g k = None.
Proof.
  intros Ht. exact (run_lit_needs colon _ g k [] t Ht).
Qed.

(** One token after the colon is not enough: the username wants a
    second colon after it. *)
Lemma tail_one_token {R : Type} (W post : str) (g : groups)
    (k : str -> str -> groups -> option R) :
  forallb user_char W = true -> ends_token post = true ->
  run tail_regex (colon :: W ++ post) g k = None.
Proof.
  intros HW Hpost.
  destruct (ends_token_stops post Hpost) as (_ & _ & Hu & Hc & _).
  unfold tail_regex. cbn [run].
  replace (char_eqb (lower_char colon) (lower_char colon)) with true
    by reflexivity.
  apply (many1_through_none user_char (like colon)); try assumption.
  - apply user_char_not_colon. exact HW.
  - intros m [|x t] Ht; [reflexivity|]. simpl in Ht. unfold like in Ht.
    destruct (char_eqb _ _); [discriminate | reflexivity].
Qed.

(** The path is greedy and gives back, one character at a time, until
    the tail matches: that is at the last two tokens. *)
Lemma path_backtrack {R : Type} (PATH U PW post : str)
    (k : str -> str -> option R) (r : R) :
  forallb path_char PATH = true ->
  forallb user_char U = true -> forallb user_char PW = true ->
  ends_token post = true ->
  needs (like colon) k ->
  (forall m, k m (colon :: PW ++ post) = None) ->
  k PATH (colon :: U ++ colon :: PW ++ post) = Some r ->
  many0 path_char (PATH ++ colon :: U ++ colon :: PW ++ post) k = Some r.
Proof.
  intros HPATH HU HPW Hpost Hneeds Hone Hk.
  destruct (ends_token_stops post Hpost) as (Hp & _ & _ & Hc & _).
  apply many0_deeper; [exact HPATH|].
  cbn [many0]. replace (path_char colon) with true by reflexivity.
  rewrite (many0_through path_char (like colon)).
  - cbn [many0]. replace (path_char colon) with true by reflexivity.
    rewrite (many0_through_none path_char (like colon)).
    + rewrite Hone. rewrite app_nil_r. exact Hk.
    + apply user_char_path. exact HPW.
    + apply user_char_not_colon. exact HPW.
    + intros m t Ht. apply Hneeds. exact Ht.
    + exact Hp.
    + exact Hc.
  - apply user_char_path. exact HU.
  - apply user_char_not_colon. exact HU.
  - intros m t Ht. apply Hneeds. exact Ht.
Qed.

(** ** The matcher: the URL *)

(** Decide the comparisons of a literal of the pattern with a literal
    character of the line. *)
Ltac lit_eval :=
  repeat match goal with
  | |- context [char_eqb
                  (lower_char (Chr (Ascii ?a ?b ?c ?d ?e ?f ?g ?h)))
                  (lower_char (Chr (Ascii ?a' ?b' ?c' ?d' ?e' ?f' ?g' ?h')))] =>
      let t := constr:(char_eqb
                         (lower_char (Chr (Ascii a b c d e f g h)))
                         (lower_char (Chr (Ascii a' b' c' d' e' f' g' h')))) in
      let v := eval vm_compute in t in
      change t with v
  end; cbv iota.

Lemma host_run {R : Type} (sch H rest : str) (g : groups)
    (K : str -> str -> groups -> option R) (r : R) :
  sch = py "http" \/ sch = py "https" ->
  H <> [] -> forallb host_char H = true -> stops host_char rest = true ->
  run after_host rest g (fun m t g' => K (sch ++ py "://" ++ H ++ m) t g')
    = Some r ->
  run url_regex (sch ++ py "://" ++ H ++ rest) g K = Some r.
Proof.
  intros [-> | ->] HH1 HH2 Hrest HK.
  - unfold url_regex. cbn [py list_ascii_of_string map lits app]. cbn [run].
    unfold colon, slash. lit_eval.
    apply many1_greedy; try assumption.
  - unfold url_regex. cbn [py list_ascii_of_string map lits app]. cbn [run].
    unfold colon, slash. lit_eval.
    rewrite (many1_greedy host_char H rest _ r); try assumption. reflexivity.
Qed.

Lemma run_opt_some {R : Type} (r : regex) (s : str) (g : groups)
    (k : str -> str -> groups -> option R) (x : R) :
  run r s g k = Some x -> run (Opt r) s g k = Some x.
Proof. intros H. cbn [run]. rewrite H. reflexivity. Qed.

Lemma run_opt_skip {R : Type} (r : regex) (s : str) (g : groups)
    (k : str -> str -> groups -> option R) (o : option R) :
  run r s g k = None -> k [] s g = o -> run (Opt r) s g k = o.
Proof. intros H Hk. cbn [run]. rewrite H. exact Hk. Qed.

Lemma port_run {R : Type} (P rest : str) (g : groups)
    (k : str -> str -> groups -> option R) (r : R) :
  P <> [] -> forallb is_digit P = true -> stops is_digit rest = true ->
  k (colon :: P) rest g = Some r ->
  run port_regex (colon :: P ++ rest) g k = Some r.
Proof.
  intros HP1 HP2 Hrest Hk. unfold port_regex. cbn [run].
  unfold colon. lit_eval. apply many1_greedy; assumption.
Qed.

Lemma path_none {R : Type} (t : str) (g : groups)
    (k : str -> str -> groups -> option R) :
  stops (like slash) t = true -> run path_regex t g k = None.
Proof.
  intros Ht. exact (run_lit_needs slash _ g k [] t Ht).
Qed.

Lemma path_run {R : Type} (PATH U PW post : str) (g : groups)
    (k : str -> str -> groups -> option R) (r : R) :
  forallb path_char PATH = true ->
  forallb user_char U = true -> forallb user_char PW = true ->
  ends_token post = true ->
  (forall m t g', stops (like colon) t = true -> k m t g' = None) ->
  (forall m g', k m (colon :: PW ++ post) g' = None) ->
  k (slash :: PATH) (colon :: U ++ colon :: PW ++ post) g = Some r ->
  run path_regex (slash :: PATH ++ colon :: U ++ colon :: PW ++ post) g k
    = Some r.
Proof.
  intros HPATH HU HPW Hpost Hneeds Hone Hk. unfold path_regex. cbn [run].
  unfold slash at 1 2. lit_eval.
  apply path_backtrack; try assumption.
  - intros m t Ht. apply Hneeds. exact Ht.
  - intros m. apply Hone.
Qed.

(** ** Extraction of a credential *)

Lemma search_skip (pre s : str) :
  no_match_before (length pre) (pre ++ s) = true ->
  search CREDENTIAL_PATTERN (pre ++ s) = search CREDENTIAL_PATTERN s.
Proof.
  induction pre as [|c pre IH]; intros H; [reflexivity|].
  cbn [length no_match_before app] in H.
  apply andb_true_iff in H as [H0 H1].
  cbn [app search].
  destruct (match_here CREDENTIAL_PATTERN (c :: pre ++ s));
    [discriminate|]. apply IH. exact H1.
Qed.

Lemma search_here (s : str) (g : groups) :
  match_here CREDENTIAL_PATTERN s = Some g ->
  search CREDENTIAL_PATTERN s = Some g.
Proof.
  intros H. destruct s; cbn [search]; rewrite H; reflexivity.
Qed.

Lemma port_none {R : Type} (t : str) (g : groups)
    (k : str -> str -> groups -> option R) :
  stops (like colon) t = true -> run port_regex t g k = None.
Proof.
  intros Ht. exact (run_lit_needs colon _ g k [] t Ht).
Qed.

(** With a path, the port being there or not. *)
Lemma match_url_path (H P PATH U PW post : str) :
  H <> [] -> forallb host_char H = true ->
  forallb is_digit P = true ->
  forallb path_char PATH = true ->
  U <> [] -> forallb user_char U = true ->
  PW <> [] -> forallb user_char PW = true ->
  ends_token post = true ->
  match_here CREDENTIAL_PATTERN
    (py "http" ++ py "://" ++ H ++ port_text P ++ slash :: PATH
       ++ colon :: U ++ colon :: PW ++ post)
  = Some (set_group 3 PW (set_group 2 U
       (set_group 1 (py "http" ++ py "://" ++ H ++ port_text P
                       ++ slash :: PATH)
          no_groups))).
Proof.
  intros HH1 HH2 HP2 HPATH HU1 HU2 HPW1 HPW2 Hpost.
  destruct (ends_token_stops post Hpost) as (_ & Hpass & _).
  assert (Hpath : forall (m0 : str) (g0 : groups),
    run path_regex (slash :: PATH ++ colon :: U ++ colon :: PW ++ post) g0
      (fun m2 s2 g2 =>
         run tail_regex s2
           (set_group 1 (py "http" ++ py "://" ++ H ++ m0 ++ m2) g2)
           (fun _ _ g3 => Some g3))
    = Some (set_group 3 PW (set_group 2 U
         (set_group 1 (py "http" ++ py "://" ++ H ++ m0 ++ slash :: PATH)
            g0)))).
  { intros m0 g0. apply path_run; try assumption.
    - intros m t g' Ht. apply tail_needs. exact Ht.
    - intros m g'. apply tail_one_token; assumption.
    - apply tail_match; try assumption.
      + apply user_char_pass. exact HPW2.
      + reflexivity. }
  unfold match_here, CREDENTIAL_PATTERN. cbn [run].
  apply host_run; try assumption; [left; reflexivity | |].
  { destruct P; reflexivity. }
  unfold after_host. cbn [run].
  destruct P as [|d P]; cbn [port_text app].
  - apply (run_opt_skip port_regex); [apply port_none; reflexivity|].
    apply (run_opt_some path_regex). apply (Hpath [] no_groups).
  - apply (run_opt_some port_regex).
    apply (port_run (d :: P)); try assumption; [discriminate | reflexivity |].
    apply (run_opt_some path_regex). apply (Hpath (colon :: d :: P) no_groups).
Qed.

(** The groups of a match are the text of the line from the start of
    the match on: nothing before it matters. *)
Lemma extract_at (pre s : str) (g : groups) :
  no_match_before (length pre) (pre ++ s) = true ->
  match_here CREDENTIAL_PATTERN s = Some g ->
  extract (pre ++ s) = Some (groups3 g).
Proof.
  intros Hpre Hm. unfold extract.
  rewrite (search_skip pre s Hpre), (search_here s g Hm). reflexivity.
Qed.

(** A username that is not a number is not taken for a port. *)
Lemma first_non_digit (U : str) :
  forallb is_digit U = false ->
  exists D c U', U = D ++ c :: U' /\ forallb is_digit D = true
                 /\ is_digit c = false.
Proof.
  induction U as [|x U IH]; simpl; [discriminate|].
  destruct (is_digit x) eqn:Hx; simpl.
  - intros H. destruct (IH H) as (D & c & U' & -> & HD & Hc).
    exists (x :: D), c, U'. simpl. rewrite Hx. auto.
  - intros _. exists [], x, U. auto.
Qed.

Lemma digit_not_colon_slash (D : str) :
  forallb is_digit D = true ->
  forallb (fun c => negb (like colon c || like slash c)) D = true.
Proof.
  intros H. rewrite forallb_forall in *. intros c Hc. specialize (H c Hc).
  rewrite like_colon, like_slash.
  destruct c as [[[] [] [] [] [] [] [] []] | [[] [] [] [] [] [] [] []]]; try discriminate H; reflexivity.
Qed.

Lemma port_not_taken {R : Type} (U rest : str) (g : groups)
    (k : str -> str -> groups -> option R) :
  forallb user_char U = true -> forallb is_digit U = false ->
  (forall m t g', stops (fun c => like colon c || like slash c) t = true ->
                  k m t g' = None) ->
  run port_regex (colon :: U ++ rest) g k = None.
Proof.
  intros HU Hnum Hk.
  destruct (first_non_digit U Hnum) as (D & c & U' & -> & HD & Hc).
  unfold port_regex. cbn [run]. unfold colon at 1 2. lit_eval.
  rewrite <- app_assoc.
  apply (many1_through_none is_digit
           (fun c => like colon c || like slash c)).
  - exact HD.
  - apply digit_not_colon_slash. exact HD.
  - intros m t Ht. apply Hk. exact Ht.
  - simpl. rewrite Hc. reflexivity.
  - simpl. rewrite forallb_app in HU. apply andb_true_iff in HU as [_ HU].
    simpl in HU. apply andb_true_iff in HU as [HU _].
    rewrite like_colon, like_slash. unfold user_char in HU.
    destruct (char_eqb c colon), (char_eqb c slash); simpl in *;
      congruence.
Qed.

Lemma stops_colon_slash (t : str) :
  stops (fun c => like colon c || like slash c) t = true ->
  stops (like colon) t = true /\ stops (like slash) t = true.
Proof.
  destruct t as [|c t]; simpl; [auto|].
  destruct (like colon c), (like slash c); simpl; auto.
Qed.

Lemma match_url_no_path (sch H P U PW post : str) :
  sch = py "http" \/ sch = py "https" ->
  H <> [] -> forallb host_char H = true ->
  forallb is_digit P = true ->
  (P = [] -> forallb is_digit U = false) ->
  U <> [] -> forallb user_char U = true ->
  PW <> [] -> forallb pass_char PW = true ->
  stops pass_char post = true ->
  match_here CREDENTIAL_PATTERN
    (sch ++ py "://" ++ H ++ port_text P ++ colon :: U ++ colon :: PW ++ post)
  = Some (set_group 3 PW (set_group 2 U
       (set_group 1 (sch ++ py "://" ++ H ++ port_text P) no_groups))).
Proof.
  intros Hsch HH1 HH2 HP Hnum HU1 HU2 HPW1 HPW2 Hpost.
  unfold match_here, CREDENTIAL_PATTERN. cbn [run].
  apply host_run; try assumption.
  { destruct P; reflexivity. }
  unfold after_host. cbn [run].
  destruct P as [|d P].
  - cbn [port_text app]. apply run_opt_skip.
    + apply port_not_taken; [exact HU2 | apply Hnum; reflexivity |].
      intros m t g' Ht. apply stops_colon_slash in Ht as [Hc Hs].
      apply run_opt_skip; [apply path_none; exact Hs|].
      apply tail_needs. exact Hc.
    + apply run_opt_skip; [apply path_none; reflexivity|].
      rewrite !app_nil_r. apply tail_match; try assumption. reflexivity.
  - cbn [port_text app]. apply run_opt_some.
    apply (port_run (d :: P)); try assumption; [discriminate | reflexivity |].
    apply run_opt_skip; [apply path_none; reflexivity|].
    rewrite !app_nil_r. apply tail_match; try assumption. reflexivity.
Qed.

(** A username made of digits is tried as the port, and given back
    when one token only is left after it. *)
Lemma port_given_back {R : Type} (U PW post : str) (g : groups)
    (k : str -> str -> groups -> option R) :
  U <> [] -> forallb is_digit U = true ->
  (forall m t g', stops (fun c => like colon c || like slash c) t = true ->
                  k m t g' = None) ->
  (forall m g', k m (colon :: PW ++ post) g' = None) ->
  run port_regex (colon :: U ++ colon :: PW ++ post) g k = None.
Proof.
  intros HU1 HU2 Hk Hone. unfold port_regex. cbn [run].
  unfold colon at 1 2. lit_eval.
  destruct U as [|c U]; [congruence|]. cbn [forallb] in HU2.
  apply andb_true_iff in HU2 as [Hc HU2]. cbn [app many1]. rewrite Hc.
  rewrite (many0_through is_digit (fun c => like colon c || like slash c)).
  - rewrite many0_stop by reflexivity. apply Hone.
  - exact HU2.
  - apply digit_not_colon_slash. exact HU2.
  - intros m t Ht. apply Hk. exact Ht.
Qed.

(** Without a path, the username and the password being tokens. *)
Lemma match_url_tokens (H P U PW post : str) :
  H <> [] -> forallb host_char H = true ->
  forallb is_digit P = true ->
  U <> [] -> forallb user_char U = true ->
  PW <> [] -> forallb user_char PW = true ->
  ends_token post = true ->
  match_here CREDENTIAL_PATTERN
    (py "http" ++ py "://" ++ H ++ port_text P
       ++ colon :: U ++ colon :: PW ++ post)
  = Some (set_group 3 PW (set_group 2 U
       (set_group 1 (py "http" ++ py "://" ++ H ++ port_text P) no_groups))).
Proof.
  intros HH1 HH2 HP HU1 HU2 HPW1 HPW2 Hpost.
  destruct (ends_token_stops post Hpost) as (_ & Hpass & _).
  pose proof (user_char_pass PW HPW2) as HPW3.
  destruct P as [|d P].
  - destruct (forallb is_digit U) eqn:Hnum.
    + cbn [port_text app].
      unfold match_here, CREDENTIAL_PATTERN. cbn [run].
      apply host_run; try exact HH1; try exact HH2;
        [left; reflexivity | reflexivity |].
      unfold after_host. cbn [run]. apply (run_opt_skip port_regex).
      * apply port_given_back; try assumption.
        -- intros m t g' Ht. apply stops_colon_slash in Ht as [Hc Hs].
           apply run_opt_skip; [apply path_none; exact Hs|].
           apply tail_needs. exact Hc.
        -- intros m g'.
           apply run_opt_skip; [apply path_none; reflexivity|].
           apply tail_one_token; assumption.
      * apply run_opt_skip; [apply path_none; reflexivity|].
        rewrite !app_nil_r. apply tail_match; try assumption. reflexivity.
    + apply (match_url_no_path (py "http") H [] U PW post); try assumption.
      * left. reflexivity.
      * intros _. exact Hnum.
  - apply (match_url_no_path (py "http") H (d :: P) U PW post);
      try assumption; [left; reflexivity | discriminate].
Qed.

(** ** What a match is made of *)

Lemma many0_sound {R : Type} (p : char -> bool) (s : str)
    (k : str -> str -> option R) (x : R) :
  many0 p s k = Some x ->
  exists m t, s = m ++ t /\ forallb p m = true /\ k m t = Some x.
Proof.
  revert k. induction s as [|c s IH]; intros k H; cbn [many0] in H.
  - exists [], []. auto.
  - destruct (p c) eqn:Hc.
    + destruct (many0 p s (fun m t => k (c :: m) t)) as [y|] eqn:Hin.
      * injection H as ->. apply IH in Hin as (m & t & -> & Hm & Hk).
        exists (c :: m), t. cbn [forallb]. rewrite Hc, Hm. auto.
      * exists [], (c :: s). auto.
    + exists [], (c :: s). auto.
Qed.

Lemma many1_sound {R : Type} (p : char -> bool) (s : str)
    (k : str -> str -> option R) (x : R) :
  many1 p s k = Some x ->
  exists m t, s = m ++ t /\ m <> [] /\ forallb p m = true
              /\ k m t = Some x.
Proof.
  destruct s as [|c s]; cbn [many1]; [discriminate|].
  destruct (p c) eqn:Hc; [|discriminate]. intros H.
  apply many0_sound in H as (m & t & -> & Hm & Hk).
  exists (c :: m), t. cbn [forallb]. rewrite Hc, Hm.
  repeat split; [discriminate | exact Hk].
Qed.

(** With a continuation that always succeeds, the repetition takes all
    it can. *)
Lemma many0_longest {R : Type} (p : char -> bool) (s : str)
    (k : str -> str -> option R) :
  (forall m t, k m t <> None) ->
  exists m t, s = m ++ t /\ forallb p m = true /\ stops p t = true
              /\ many0 p s k = k m t.
Proof.
  revert k. induction s as [|c s IH]; intros k Hk; cbn [many0].
  - exists [], []. auto.
  - destruct (p c) eqn:Hc.
    + destruct (IH (fun m t => k (c :: m) t)) as (m & t & -> & Hm & Ht & Heq).
      { intros m t. apply Hk. }
      rewrite Heq. exists (c :: m), t. cbn [forallb]. rewrite Hc, Hm.
      repeat split; try assumption.
      destruct (k (c :: m) t) eqn:Hkk; [reflexivity|].
      exfalso. exact (Hk _ _ Hkk).
    + exists [], (c :: s). cbn [stops forallb]. rewrite Hc. auto.
Qed.

Lemma many1_longest {R : Type} (p : char -> bool) (s : str)
    (k : str -> str -> option R) (x : R) :
  (forall m t, k m t <> None) ->
  many1 p s k = Some x ->
  exists m t, s = m ++ t /\ m <> [] /\ forallb p m = true
              /\ stops p t = true /\ k m t = Some x.
Proof.
  intros Hk. destruct s as [|c s]; cbn [many1]; [discriminate|].
  destruct (p c) eqn:Hc; [|discriminate]. intros H.
  destruct (many0_longest p s (fun m t => k (c :: m) t))
    as (m & t & -> & Hm & Ht & Heq).
  { intros m t. apply Hk. }
  rewrite Heq in H. exists (c :: m), t. cbn [forallb]. rewrite Hc, Hm.
  repeat split; try assumption. discriminate.
Qed.

(** A match of a regular expression without groups takes a prefix of
    the text, of the least length at least, and leaves the groups. *)
Lemma run_sound {R : Type} (r : regex) (s : str) (g : groups)
    (k : str -> str -> groups -> option R) (x : R) :
  group_free r = true ->
  run r s g k = Some x ->
  exists m t, s = m ++ t /\ min_length r <= length m
              /\ k m t g = Some x.
Proof.
  revert s g k. induction r as [c | p | p | r1 IH1 r2 IH2 | r IH | n r IH];
    intros s g k Hgf H; cbn [run group_free min_length] in *.
  - destruct s as [|y s]; [discriminate|].
    destruct (char_eqb _ _); [|discriminate].
    exists [y], s. cbn. auto.
  - apply many0_sound in H as (m & t & -> & _ & Hk).
    exists m, t. repeat split; [lia | exact Hk].
  - apply many1_sound in H as (m & t & -> & Hne & _ & Hk).
    exists m, t. repeat split; [|exact Hk].
    destruct m; [congruence | cbn; lia].
  - apply andb_true_iff in Hgf as [H1 H2].
    apply IH1 in H as (m1 & t1 & -> & Hl1 & H); [|exact H1].
    apply IH2 in H as (m2 & t2 & -> & Hl2 & H); [|exact H2].
    exists (m1 ++ m2), t2. rewrite <- app_assoc, length_app.
    repeat split; [lia | exact H].
  - destruct (run r s g k) as [y|] eqn:Hr.
    + injection H as ->. apply IH in Hr as (m & t & -> & _ & Hk);
        [|exact Hgf].
      exists m, t. repeat split; [lia | exact Hk].
    + exists [], s. repeat split; [cbn; lia | exact H].
  - discriminate.
Qed.

Lemma search_sound (r : regex) (s : str) (g : groups) :
  search r s = Some g ->
  exists pre s', s = pre ++ s' /\ match_here r s' = Some g.
Proof.
  induction s as [|c s IH]; cbn [search].
  - destruct (match_here r []) eqn:H; [|discriminate].
    intros [= ->]. exists [], []. auto.
  - destruct (match_here r (c :: s)) eqn:H.
    + intros [= ->]. exists [], (c :: s). auto.
    + intros Hs. apply IH in Hs as (pre & s' & -> & Hm).
      exists (c :: pre), s'. auto.
Qed.

Lemma like_colon_eq (x : char) : like colon x = true -> x = colon.
Proof. rewrite like_colon. apply char_eqb_eq. Qed.

(** Every extraction is a URL, a colon, a username without colon, slash
    or white space, a colon, and a password without slash or white
    space that runs as far as its class goes; none of them is empty. *)
Lemma extract_sound (line url username password : str) :
  extract line = Some (url, username, password) ->
  exists pre post,
    line = pre ++ url ++ colon :: username ++ colon :: password ++ post
    /\ url <> []
    /\ username <> [] /\ forallb user_char username = true
    /\ password <> [] /\ forallb pass_char password = true
    /\ stops pass_char post = true.
Proof.
  unfold extract. destruct (search CREDENTIAL_PATTERN line) as [g|] eqn:Hs;
    [|discriminate].
  cbn [option_map]. intros Hg.
  apply search_sound in Hs as (pre & s & -> & Hm).
  unfold match_here, CREDENTIAL_PATTERN in Hm. cbn [run] in Hm.
  apply run_sound in Hm as (m & t & -> & Hlen & Hm); [|reflexivity].
  unfold tail_regex in Hm. cbn [run] in Hm.
  destruct t as [|x t]; [discriminate|].
  destruct (char_eqb (lower_char x) (lower_char colon)) eqn:Hx;
    [|discriminate].
  apply like_colon_eq in Hx as ->.
  apply many1_sound in Hm as (u & t2 & -> & Hu1 & Hu2 & Hm).
  destruct t2 as [|y t2]; [discriminate|].
  destruct (char_eqb (lower_char y) (lower_char colon)) eqn:Hy;
    [|discriminate].
  apply like_colon_eq in Hy as ->.
  apply many1_longest in Hm as (pw & post & -> & Hp1 & Hp2 & Hp3 & Hm);
    [|discriminate].
  injection Hm as <-. unfold groups3, set_group in Hg. cbn in Hg.
  injection Hg as <- <- <-.
  exists pre, post. repeat split; try assumption.
  intros ->. cbn in Hlen. lia.
Qed.

(** ** The scan of one file *)

Lemma caught_by_exception (e : exn) : caught_by ExceptException e = true.
Proof. reflexivity. Qed.

(** The loop body appends at most one match record, of this file. *)
Lemma scan_line_appends (source : str) (keywords : list str) (n : Z)
    (line : str) (rs : list dict) :
  exists ms, Forall (fun r => is_match r = true /\ source_of r = source) ms
             /\ scan_line source keywords n line rs = rs ++ map to_dict ms.
Proof.
  unfold scan_line. destruct (extract line) as [[[url u] p]|].
  - destruct (keyword_hit keywords url).
    + exists [MatchRecord url u p source n]. split; [|reflexivity].
      constructor; [split; reflexivity | constructor].
    + exists []. split; [constructor | symmetry; apply app_nil_r].
  - exists []. split; [constructor | symmetry; apply app_nil_r].
Qed.

Lemma scan_lines_appends (source : str) (keywords : list str)
    (ls : list str) (n : Z) (rs : list dict) :
  exists ms, Forall (fun r => is_match r = true /\ source_of r = source) ms
             /\ scan_lines source keywords n ls rs = rs ++ map to_dict ms.
Proof.
  revert n rs. induction ls as [|l ls IH]; intros n rs; cbn [scan_lines].
  - exists []. split; [constructor | symmetry; apply app_nil_r].
  - destruct (scan_line_appends source keywords n l rs) as (m1 & H1 & ->).
    destruct (IH (n + 1)%Z (rs ++ map to_dict m1)) as (m2 & H2 & ->).
    exists (m1 ++ m2). split.
    + apply Forall_app. split; assumption.
    + rewrite map_app, app_assoc. reflexivity.
Qed.

(** The records of the lines do not depend on what the list held. *)
Lemma scan_lines_acc (source : str) (keywords : list str)
    (ls : list str) (n : Z) (rs : list dict) :
  scan_lines source keywords n ls rs
  = rs ++ scan_lines source keywords n ls [].
Proof.
  revert n rs. induction ls as [|l ls IH]; intros n rs; cbn [scan_lines].
  - symmetry. apply app_nil_r.
  - rewrite (IH _ (scan_line source keywords n l rs)).
    rewrite (IH _ (scan_line source keywords n l [])).
    destruct (scan_line_appends source keywords n l rs) as (m1 & _ & H1).
    unfold scan_line in *.
    destruct (extract l) as [[[url u] p]|]; [|reflexivity].
    destruct (keyword_hit keywords url); [|reflexivity].
    rewrite <- app_assoc. reflexivity.
Qed.

(** The result of the loop over the encodings, started with a list of
    match records: the list grown by match records, or one error
    record. *)
Lemma try_encodings_shape (f : file) (keywords : list str)
    (encs : list encoding) (ms : list record) :
  Forall (fun r => is_match r = true /\ source_of r = file_name f) ms ->
  exists rs,
    try_encodings f keywords encs (map to_dict ms) = Return (map to_dict rs)
    /\ (Forall (fun r => is_match r = true /\ source_of r = file_name f) rs
        \/ exists error, rs = [ErrorRecord error (file_name f)]).
Proof.
  revert ms. induction encs as [|enc encs IH]; intros ms Hms;
    cbn [try_encodings].
  - exists [ErrorRecord (py "Could not read " ++ file_name f
                           ++ py " with available encodings") (file_name f)].
    split; [reflexivity | right; eexists; reflexivity].
  - unfold read_with.
    destruct (scan_lines_appends (file_name f) keywords
                (lines (open_as f enc)) 1 (map to_dict ms))
      as (m1 & H1 & ->).
    rewrite <- map_app.
    destruct (ending (open_as f enc)) as [e|].
    + destruct (caught_by ExceptUnicodeDecodeError e).
      * apply IH. apply Forall_app. split; assumption.
      * rewrite caught_by_exception.
        exists [ErrorRecord (py "Error reading file with encoding "
                               ++ encoding_name enc) (file_name f)].
        split; [reflexivity | right; eexists; reflexivity].
    + exists (ms ++ m1). split; [reflexivity | left].
      apply Forall_app. split; assumption.
Qed.

Lemma search_shape (f : file) (keywords : list str) :
  exists rs,
    search_keywords_in_file f keywords = Return (map to_dict rs)
    /\ (Forall (fun r => is_match r = true /\ source_of r = file_name f) rs
        \/ exists error, rs = [ErrorRecord error (file_name f)]).
Proof.
  apply (try_encodings_shape f keywords encodings_to_try []). constructor.
Qed.

Lemma read_failure_error (f : file) (keywords : list str)
    (encs : list encoding) (rs : list dict) (error : str) :
  read_failure_from f encs = Some error ->
  try_encodings f keywords encs rs
  = Return [error_record error (file_name f)].
Proof.
  revert rs. induction encs as [|enc encs IH]; intros rs;
    cbn [read_failure_from try_encodings].
  - intros [= <-]. reflexivity.
  - unfold read_with. destruct (ending (open_as f enc)) as [[c text]|];
      [|discriminate].
    destruct c; cbn; try (intros [= <-]; reflexivity).
    apply IH.
Qed.

(** When the attempts that were given up had appended nothing, the
    result is the records of the first decode that went through. *)
Lemma first_decode_records (f : file) (keywords : list str)
    (encs : list encoding) (ls : list str) :
  (forall enc e, In enc encs -> ending (open_as f enc) = Some e ->
                 records_of_lines f keywords (lines (open_as f enc)) = []) ->
  first_decode_from f encs = Some ls ->
  try_encodings f keywords encs [] = Return (records_of_lines f keywords ls).
Proof.
  induction encs as [|enc encs IH]; intros Hclean;
    cbn [first_decode_from try_encodings]; [discriminate|].
  unfold read_with.
  pose proof (Hclean enc) as Henc.
  destruct (ending (open_as f enc)) as [[c text]|].
  - fold (records_of_lines f keywords (lines (open_as f enc))).
    rewrite (Henc _ (or_introl eq_refl) eq_refl).
    destruct c; cbn; try discriminate.
    apply IH. intros enc' e' Hin. apply Hclean. right. exact Hin.
  - intros [= <-]. reflexivity.
Qed.

(** What the loop over the encodings returns when a decode goes
    through: the records of the attempts given up, then the records of
    that decode. *)
Lemma try_encodings_keeps (f : file) (keywords : list str)
    (encs : list encoding) (acc : list dict) (ls : list str) :
  first_decode_from f encs = Some ls ->
  try_encodings f keywords encs acc
  = Return (acc ++ abandoned_records f keywords encs
              ++ records_of_lines f keywords ls).
Proof.
  revert acc. induction encs as [|enc encs IH]; intros acc;
    cbn [first_decode_from try_encodings abandoned_records];
    [discriminate|].
  unfold read_with. rewrite scan_lines_acc.
  fold (records_of_lines f keywords (lines (open_as f enc))).
  destruct (ending (open_as f enc)) as [[c text]|].
  - destruct c; cbn; try discriminate.
    intros Hls. rewrite (IH _ Hls), <- !app_assoc. reflexivity.
  - intros [= <-]. reflexivity.
Qed.

Lemma scan_files_flat (txt_files : list file) (keywords : list str)
    (acc : list dict) :
  scan_files txt_files keywords acc
  = Return (acc ++ flat_map (contribution keywords) txt_files).
Proof.
  revert acc. induction txt_files as [|f fs IH]; intros acc;
    cbn [scan_files flat_map].
  - rewrite app_nil_r. reflexivity.
  - unfold contribution at 1.
    destruct (search_shape f keywords) as (rs & -> & _).
    rewrite IH, app_assoc. reflexivity.
Qed.

(** ** The keyword test *)

Lemma starts_with_spec (s a : str) :
  starts_with s a = true <-> exists after, s = a ++ after.
Proof.
  revert s. induction a as [|x a IH]; intros s; cbn [starts_with].
  - split; [intros _; exists s; reflexivity | reflexivity].
  - destruct s as [|y s].
    + split; [discriminate | intros [after H]; discriminate H].
    + rewrite andb_true_iff, IH. split.
      * intros [Hxy [after ->]]. apply char_eqb_eq in Hxy as ->.
        exists after. reflexivity.
      * intros [after H]. injection H as -> ->. split.
        -- apply char_eqb_refl.
        -- exists after. reflexivity.
Qed.

Lemma contains_spec (s a : str) :
  contains s a = true <-> exists before after, s = before ++ a ++ after.
Proof.
  induction s as [|y s IH]; cbn [contains].
  - rewrite orb_false_r, starts_with_spec. split.
    + intros [after H]. exists [], after. exact H.
    + intros [before [after H]]. destruct before; [|discriminate H].
      exists after. exact H.
  - rewrite orb_true_iff, starts_with_spec, IH. split.
    + intros [[after H] | [before [after H]]].
      * exists [], after. exact H.
      * exists (y :: before), after. rewrite H. reflexivity.
    + intros [before [after H]]. destruct before as [|z before].
      * left. exists after. exact H.
      * right. injection H as _ ->. exists before, after. reflexivity.
Qed.

Lemma keyword_hit_spec (keywords : list str) (url : str) :
  keyword_hit keywords url = true <-> keyword_occurs keywords url.
Proof.
  unfold keyword_hit, keyword_occurs. rewrite existsb_exists. split.
  - intros [kw [Hin H]]. apply contains_spec in H as [b [a H]].
    exists kw, b, a. auto.
  - intros [kw [b [a [Hin H]]]]. exists kw. split; [exact Hin|].
    apply contains_spec. exists b, a. exact H.
Qed.

(** ** Numbers as text *)

Lemma uint_digits (d : Decimal.uint) :
  forallb is_digit (py (DecimalString.NilEmpty.string_of_uint d)) = true.
Proof.
  unfold py.
  induction d; cbn [DecimalString.NilEmpty.string_of_uint
                      list_ascii_of_string map forallb];
    try rewrite IHd; reflexivity.
Qed.

Lemma uint_text_nonnil (d : Decimal.uint) :
  d <> Decimal.Nil ->
  exists c ds,
    py (DecimalString.NilZero.string_of_uint d) = c :: ds
    /\ is_digit c = true /\ forallb is_digit ds = true.
Proof.
  intros Hd. pose proof (uint_digits d) as H. unfold py in *.
  destruct d; try congruence;
    cbn [DecimalString.NilZero.string_of_uint
           DecimalString.NilEmpty.string_of_uint list_ascii_of_string
           map forallb] in *;
    (eexists; eexists; split; [reflexivity|]);
    apply andb_true_iff in H; exact H.
Qed.

Lemma to_int_cases (n : Z) :
  (exists d, Z.to_int n = Decimal.Pos d /\ d <> Decimal.Nil)
  \/ (exists d, Z.to_int n = Decimal.Neg d /\ d <> Decimal.Nil
                /\ d <> Decimal.D0 Decimal.Nil).
Proof.
  destruct n as [|p|p]; cbn [Z.to_int].
  - left. eexists. split; [reflexivity | discriminate].
  - left. eexists. split; [reflexivity|].
    apply DecimalPos.Unsigned.to_uint_nonnil.
  - right. eexists. split; [reflexivity|]. split.
    + apply DecimalPos.Unsigned.to_uint_nonnil.
    + apply DecimalPos.Unsigned.to_uint_nonzero.
Qed.

(** The text of an integer: a digit or a minus sign, then digits. *)
Lemma str_of_int_shape (n : Z) :
  exists c ds, str_of_int n = c :: ds
               /\ (char_eqb c "-"%char || is_digit c) = true
               /\ forallb is_digit ds = true.
Proof.
  unfold str_of_int.
  destruct (to_int_cases n) as [(d & -> & Hd) | (d & -> & Hd & _)];
    cbn [DecimalString.NilZero.string_of_int].
  - destruct (uint_text_nonnil d Hd) as (c & ds & -> & Hc & Hds).
    exists c, ds. rewrite Hc, orb_true_r. auto.
  - destruct (uint_text_nonnil d Hd) as (c & ds & Heq & Hc & Hds).
    unfold py in *. cbn [list_ascii_of_string map]. rewrite Heq.
    exists (Chr "-"), (c :: ds). cbn [forallb]. rewrite Hc, Hds. auto.
Qed.

Lemma int_of_str_of_int (n : Z) : int_of_str (str_of_int n) = Some n.
Proof.
  unfold int_of_str.
  destruct (list_eq_dec char_dec (str_of_int n) (py "-0")) as [Heq|_].
  - exfalso. unfold str_of_int in Heq.
    destruct (to_int_cases n) as [(d & Hn & Hd) | (d & Hn & Hd & Hz)];
      rewrite Hn in Heq; cbn [DecimalString.NilZero.string_of_int] in Heq.
    + destruct (uint_text_nonnil d Hd) as (c & ds & Hs & Hc & _).
      rewrite Hs in Heq. injection Heq as -> _. discriminate Hc.
    + apply (f_equal latin) in Heq. rewrite !latin_py in Heq.
      injection Heq as Heq.
      apply Hz. destruct d; try discriminate Heq; try congruence.
      cbn in Heq. injection Heq as Heq.
      destruct d; try discriminate Heq. reflexivity.
  - unfold str_of_int at 1. rewrite latin_py.
    rewrite DecimalString.NilZero.isi.
    + rewrite DecimalZ.of_to.
      destruct (list_eq_dec char_dec (str_of_int n) (str_of_int n));
        [reflexivity | congruence].
    + destruct (to_int_cases n) as [(d & -> & Hd) | (d & -> & _)];
        congruence.
    + destruct (to_int_cases n) as [(d & -> & _) | (d & -> & Hd & _)];
        congruence.
Qed.

(** ** The lexer on the text of json.dump *)

Lemma option_map_app_nil {A : Type} (o : option (list A)) :
  option_map (app []) o = o.
Proof. destruct o; reflexivity. Qed.

Lemma option_map_cons_app {A : Type} (x : A) (ts : list A)
    (o : option (list A)) :
  option_map (cons x) (option_map (app ts) o)
  = option_map (fun r => x :: ts ++ r) o.
Proof. destruct o; reflexivity. Qed.

Lemma lex_escape (c : char) (acc more : str) :
  lex (InString acc) (json_escape c ++ more) = lex (InString (c :: acc)) more.
Proof.
  destruct c as [[[] [] [] [] [] [] [] []] | [[] [] [] [] [] [] [] []]]; reflexivity.
Qed.

Lemma lex_chars (s acc more : str) :
  lex (InString acc) (flat_map json_escape s ++ more)
  = lex (InString (rev s ++ acc)) more.
Proof.
  revert acc. induction s as [|c s IH]; intros acc; [reflexivity|].
  cbn [flat_map rev]. rewrite <- !app_assoc, lex_escape, IH. reflexivity.
Qed.

Lemma lex_string (s more : str) :
  lex Idle (json_string s ++ more)
  = option_map (cons (TString s)) (lex Idle more).
Proof.
  unfold json_string. cbn [app lex].
  change (idle_step quote) with (Some (@nil token, InString [])).
  cbv beta iota.
  rewrite option_map_app_nil, <- app_assoc, lex_chars.
  cbn [app lex].
  change (char_eqb quote quote) with true. cbv iota.
  rewrite app_nil_r, rev_involutive. reflexivity.
Qed.

Lemma lex_digits (ds acc more : str) :
  forallb is_digit ds = true ->
  lex (InNumber acc) (ds ++ more) = lex (InNumber (rev ds ++ acc)) more.
Proof.
  revert acc. induction ds as [|c ds IH]; intros acc H; [reflexivity|].
  cbn [forallb] in H. apply andb_true_iff in H as [Hc Hds].
  cbn [app lex rev]. rewrite Hc, IH by exact Hds.
  rewrite <- app_assoc. reflexivity.
Qed.

Lemma idle_step_number (c : char) :
  (char_eqb c "-"%char || is_digit c) = true ->
  idle_step c = Some ([], InNumber [c]).
Proof.
  destruct c as [[[] [] [] [] [] [] [] []] | [[] [] [] [] [] [] [] []]]; try discriminate; reflexivity.
Qed.

(** An integer is read up to the character that is not a digit. *)
Lemma lex_int (n : Z) (more : str) :
  stops is_digit more = true ->
  lex Idle (str_of_int n ++ more)
  = option_map (cons (TInt n)) (lex Idle more).
Proof.
  intros Hmore. pose proof (int_of_str_of_int n) as Hn.
  destruct (str_of_int_shape n) as (c & ds & Hs & Hc & Hds).
  rewrite Hs in *. cbn [app lex].
  rewrite (idle_step_number c Hc), option_map_app_nil.
  rewrite lex_digits by exact Hds.
  replace (rev ds ++ [c]) with (rev (c :: ds)) by reflexivity.
  destruct more as [|x more]; cbn [lex].
  - rewrite rev_involutive, Hn. reflexivity.
  - cbn [stops] in Hmore. apply negb_true_iff in Hmore. rewrite Hmore.
    rewrite rev_involutive, Hn.
    destruct (idle_step x) as [[ts st']|]; [|reflexivity].
    rewrite option_map_cons_app. reflexivity.
Qed.

Lemma option_map_app_app {A : Type} (a b : list A) (o : option (list A)) :
  option_map (app a) (option_map (app b) o) = option_map (app (a ++ b)) o.
Proof. destruct o; cbn; [rewrite app_assoc|]; reflexivity. Qed.

Lemma any_lexes (a : str) (ta : list token) : lexes_any a ta -> lexes a ta.
Proof. intros H more _. apply H. Qed.

Lemma any_app (a b : str) (ta tb : list token) :
  lexes_any a ta -> lexes_any b tb -> lexes_any (a ++ b) (ta ++ tb).
Proof.
  intros Ha Hb more. rewrite <- app_assoc, Ha, Hb, option_map_app_app.
  reflexivity.
Qed.

Lemma any_then (a b : str) (ta tb : list token) :
  lexes_any a ta -> lexes b tb -> lexes (a ++ b) (ta ++ tb).
Proof.
  intros Ha Hb more Hm.
  rewrite <- app_assoc, Ha, Hb, option_map_app_app by exact Hm.
  reflexivity.
Qed.

Lemma then_any (a : str) (c : char) (b : str) (ta tb : list token) :
  lexes a ta -> is_digit c = false -> lexes_any (c :: b) tb ->
  lexes_any (a ++ c :: b) (ta ++ tb).
Proof.
  intros Ha Hc Hb more. rewrite <- app_assoc, Ha.
  - rewrite Hb, option_map_app_app. reflexivity.
  - cbn. rewrite Hc. reflexivity.
Qed.

Lemma then_then (a : str) (c : char) (b : str) (ta tb : list token) :
  lexes a ta -> is_digit c = false -> lexes (c :: b) tb ->
  lexes (a ++ c :: b) (ta ++ tb).
Proof.
  intros Ha Hc Hb more Hm. rewrite <- app_assoc, Ha.
  - rewrite Hb, option_map_app_app by exact Hm. reflexivity.
  - cbn. rewrite Hc. reflexivity.
Qed.

(** Punctuation and blanks: by computation. *)
Ltac lex_literal :=
  let more := fresh "more" in
  intros more; simpl; destruct (lex Idle more); reflexivity.

Lemma lexes_string (s : str) : lexes_any (json_string s) [TString s].
Proof. intros more. apply lex_string. Qed.

Lemma lexes_value (v : value) : lexes (json_value v) [value_token v].
Proof.
  destruct v as [s|n]; cbn [json_value value_token].
  - apply any_lexes, lexes_string.
  - intros more Hm. apply lex_int. exact Hm.
Qed.

Lemma lexes_spaces (n : nat) : lexes_any (repeat (Chr " ") n) [].
Proof.
  induction n as [|n IH]; intros more; cbn [repeat app].
  - rewrite option_map_app_nil. reflexivity.
  - cbn [lex]. change (idle_step (Chr " ")) with (Some (@nil token, Idle)).
    cbv beta iota. rewrite option_map_app_nil. apply IH.
Qed.

Lemma lexes_newline (level : nat) : lexes_any (json_newline level) [].
Proof.
  intros more. unfold json_newline. cbn [app lex].
  change (idle_step newline) with (Some (@nil token, Idle)).
  cbv beta iota. rewrite option_map_app_nil. apply lexes_spaces.
Qed.

Lemma lexes_member (kv : string * value) :
  lexes (json_member kv) (member_tokens kv).
Proof.
  unfold json_member, member_tokens.
  apply (any_then _ _ [TString (py (fst kv))] [TColon; value_token (snd kv)]).
  - apply lexes_string.
  - apply (any_then (py ": ") _ [TColon] [value_token (snd kv)]).
    + lex_literal.
    + apply lexes_value.
Qed.

Lemma lexes_comma_newline (level : nat) :
  lexes_any (py "," ++ json_newline level) [TComma].
Proof.
  apply (any_app (py ",") _ [TComma] []).
  - lex_literal.
  - apply lexes_newline.
Qed.

Lemma lexes_members (level : nat) (d : dict) :
  lexes (join (py "," ++ json_newline level) (map json_member d))
        (join [TComma] (map member_tokens d)).
Proof.
  induction d as [|kv d IH].
  - intros more _. cbn. rewrite option_map_app_nil. reflexivity.
  - destruct d as [|kv2 d].
    + cbn [map join]. apply lexes_member.
    + change (join (py "," ++ json_newline level)
                (map json_member (kv :: kv2 :: d)))
        with (json_member kv
                ++ Chr "," :: (json_newline level
                     ++ join (py "," ++ json_newline level)
                          (map json_member (kv2 :: d)))).
      change (join [TComma] (map member_tokens (kv :: kv2 :: d)))
        with (member_tokens kv
                ++ (TComma :: join [TComma] (map member_tokens (kv2 :: d)))).
      apply then_then; [apply lexes_member | reflexivity |].
      apply (any_then (py "," ++ json_newline level) _ [TComma] _).
      * apply lexes_comma_newline.
      * exact IH.
Qed.

Lemma lexes_dict (level : nat) (d : dict) :
  lexes_any (json_dict level d) (dict_tokens d).
Proof.
  destruct d as [|kv d]; [lex_literal|].
  unfold json_dict, dict_tokens.
  apply (any_app (py "{") _ [TLBrace] _); [lex_literal|].
  apply (any_app _ _ [] _); [apply lexes_newline|].
  unfold json_newline at 2. cbn [app].
  apply then_any; [apply lexes_members | reflexivity |].
  apply (any_app (json_newline level) (py "}") [] [TRBrace]).
  - apply lexes_newline.
  - lex_literal.
Qed.

Lemma lexes_dicts (rs : list dict) :
  lexes_any (join (py "," ++ json_newline 1) (map (json_dict 1) rs))
            (join [TComma] (map dict_tokens rs)).
Proof.
  induction rs as [|d rs IH].
  - intros more. cbn. rewrite option_map_app_nil. reflexivity.
  - destruct rs as [|d2 rs].
    + cbn [map join]. apply lexes_dict.
    + change (join (py "," ++ json_newline 1)
                (map (json_dict 1) (d :: d2 :: rs)))
        with (json_dict 1 d
                ++ (py "," ++ json_newline 1)
                ++ join (py "," ++ json_newline 1)
                     (map (json_dict 1) (d2 :: rs))).
      change (join [TComma] (map dict_tokens (d :: d2 :: rs)))
        with (dict_tokens d
                ++ [TComma] ++ join [TComma] (map dict_tokens (d2 :: rs))).
      apply any_app; [apply lexes_dict|].
      apply any_app; [apply lexes_comma_newline | exact IH].
Qed.

Lemma lex_dump (rs : list dict) :
  lex Idle (json_dump rs) = Some (dump_tokens rs).
Proof.
  destruct rs as [|d rs]; [reflexivity|].
  unfold json_dump, dump_tokens.
  assert (H : lexes_any
                (py "[" ++ json_newline 1
                   ++ join (py "," ++ json_newline 1)
                        (map (json_dict 1) (d :: rs))
                   ++ json_newline 0 ++ py "]")
                ([TLBracket] ++ [] ++ join [TComma] (map dict_tokens (d :: rs))
                   ++ [] ++ [TRBracket])).
  { apply any_app; [lex_literal|].
    apply any_app; [apply lexes_newline|].
    apply any_app; [apply lexes_dicts|].
    apply any_app; [apply lexes_newline | lex_literal]. }
  specialize (H []). rewrite app_nil_r in H. rewrite H.
  cbn [lex option_map]. rewrite app_nil_r. reflexivity.
Qed.

(** ** The parser on the tokens of json.dump *)

Lemma set_item_fresh (key : string) (v : value) (d : dict) :
  ~ In key (keys d) -> set_item key v d = d ++ [(key, v)].
Proof.
  induction d as [|[k x] d IH]; intros Hin; cbn [set_item app];
    [reflexivity|].
  destruct (String.eqb_spec key k) as [->|Hne].
  - exfalso. apply Hin. left. reflexivity.
  - rewrite IH; [reflexivity|]. intros H. apply Hin. right. exact H.
Qed.

Lemma parse_member (d0 : dict) (kv : string * value) (items : list dict)
    (more : list token) :
  ~ In (fst kv) (keys d0) ->
  parse (AtKey d0) items (member_tokens kv ++ more)
  = parse (AfterMember (d0 ++ [kv])) items more.
Proof.
  intros Hin. destruct kv as [k v]. unfold member_tokens.
  cbn [fst snd app parse]. rewrite latin_py.
  destruct v as [s|n]; cbn [value_token];
    rewrite set_item_fresh by exact Hin; reflexivity.
Qed.

Lemma parse_members (d : dict) (d0 : dict) (items : list dict)
    (rest : list token) :
  d <> [] -> NoDup (keys (d0 ++ d)) ->
  parse (AtKey d0) items
    (join [TComma] (map member_tokens d) ++ TRBrace :: rest)
  = parse AfterItem (items ++ [d0 ++ d]) rest.
Proof.
  revert d0. induction d as [|kv d IH]; intros d0 Hne Hnd; [congruence|].
  assert (Hfresh : ~ In (fst kv) (keys d0)).
  { unfold keys in *. rewrite map_app in Hnd. cbn [map] in Hnd.
    apply NoDup_remove_2 in Hnd. intros H. apply Hnd.
    apply in_or_app. left. exact H. }
  destruct d as [|kv2 d].
  - cbn [map join]. rewrite parse_member by exact Hfresh. reflexivity.
  - change (join [TComma] (map member_tokens (kv :: kv2 :: d)))
      with (member_tokens kv
              ++ TComma :: join [TComma] (map member_tokens (kv2 :: d))).
    rewrite <- app_assoc, parse_member by exact Hfresh.
    cbn [app parse]. rewrite IH.
    + rewrite <- app_assoc. reflexivity.
    + discriminate.
    + rewrite <- app_assoc. exact Hnd.
Qed.

Lemma parse_dict_tokens (d : dict) (items : list dict) (rest : list token) :
  NoDup (keys d) ->
  parse AtFirstKey items (tl (dict_tokens d) ++ rest)
  = parse AfterItem (items ++ [d]) rest.
Proof.
  intros Hnd. unfold dict_tokens. cbn [tl].
  destruct d as [|kv d]; [reflexivity|].
  rewrite <- app_assoc. cbn [app].
  assert (H : forall ts,
             parse AtFirstKey items (member_tokens kv ++ ts)
             = parse (AtKey []) items (member_tokens kv ++ ts))
    by reflexivity.
  destruct d as [|kv2 d].
  - cbn [map join]. rewrite H.
    apply (parse_members [kv] [] items rest); [discriminate | exact Hnd].
  - change (join [TComma] (map member_tokens (kv :: kv2 :: d)))
      with (member_tokens kv
              ++ TComma :: join [TComma] (map member_tokens (kv2 :: d))).
    rewrite <- app_assoc, H.
    change (member_tokens kv
              ++ (TComma :: join [TComma] (map member_tokens (kv2 :: d)))
              ++ TRBrace :: rest)
      with (join [TComma] (map member_tokens (kv :: kv2 :: d))
              ++ TRBrace :: rest).
    apply (parse_members (kv :: kv2 :: d) [] items rest);
      [discriminate | exact Hnd].
Qed.

Lemma parse_dicts (rs : list dict) (items : list dict) :
  rs <> [] -> Forall (fun d => NoDup (keys d)) rs ->
  parse AtItem items (join [TComma] (map dict_tokens rs) ++ [TRBracket])
  = Some (items ++ rs).
Proof.
  revert items. induction rs as [|d rs IH]; intros items Hne Hnd;
    [congruence|].
  inversion Hnd as [|? ? Hd Hrs]; subst.
  destruct rs as [|d2 rs].
  - cbn [map join].
    change (dict_tokens d ++ [TRBracket])
      with (TLBrace :: tl (dict_tokens d) ++ [TRBracket]).
    cbn [parse]. rewrite parse_dict_tokens by exact Hd. reflexivity.
  - change (join [TComma] (map dict_tokens (d :: d2 :: rs)))
      with (dict_tokens d
              ++ TComma :: join [TComma] (map dict_tokens (d2 :: rs))).
    rewrite <- app_assoc.
    change (dict_tokens d
              ++ (TComma :: join [TComma] (map dict_tokens (d2 :: rs)))
              ++ [TRBracket])
      with (TLBrace :: tl (dict_tokens d)
              ++ (TComma :: join [TComma] (map dict_tokens (d2 :: rs))
                    ++ [TRBracket])).
    cbn [parse]. rewrite parse_dict_tokens by exact Hd.
    cbn [parse]. rewrite IH; [|discriminate | exact Hrs].
    rewrite <- app_assoc. reflexivity.
Qed.

Lemma parse_dump (rs : list dict) :
  Forall (fun d => NoDup (keys d)) rs ->
  parse AtStart [] (dump_tokens rs) = Some rs.
Proof.
  intros Hnd. unfold dump_tokens. destruct rs as [|d rs]; [reflexivity|].
  cbn [parse].
  assert (H : exists x,
             join [TComma] (map dict_tokens (d :: rs)) = TLBrace :: x).
  { destruct rs; eexists; reflexivity. }
  destruct H as [x Hx].
  transitivity (parse AtItem []
                  (join [TComma] (map dict_tokens (d :: rs)) ++ [TRBracket])).
  - rewrite Hx. reflexivity.
  - apply (parse_dicts (d :: rs) []); [discriminate | exact Hnd].
Qed.

(** What json.dump writes, json.loads reads back. *)
Lemma json_loads_dump (rs : list dict) :
  Forall (fun d => NoDup (keys d)) rs ->
  json_loads (json_dump rs) = Some rs.
Proof.
  intros Hnd. unfold json_loads. rewrite lex_dump. apply parse_dump.
  exact Hnd.
Qed.

(** ** Writing *)

Lemma encode_error_from_none (position : nat) (text : str) :
  encodable text = true -> encode_error_from position text = None.
Proof.
  revert position. induction text as [|c text IH]; intros position H;
    [reflexivity|].
  cbn [encodable forallb] in H. apply andb_true_iff in H as [Hc H].
  destruct c as [a | b]; [|discriminate Hc].
  cbn [encode_error_from]. apply IH. exact H.
Qed.

Lemma encode_error_none (text : str) :
  encodable text = true -> encode_error text = None.
Proof. apply encode_error_from_none. Qed.

Lemma encode_error_from_some (position : nat) (text : str) :
  encodable text = false ->
  exists e, encode_error_from position text = Some e
            /\ exn_class_of e = UnicodeEncodeError.
Proof.
  revert position. induction text as [|c text IH]; intros position H;
    [discriminate H|].
  destruct c as [a | b]; cbn [encode_error_from].
  - apply IH. exact H.
  - eexists. split; reflexivity.
Qed.

Lemma encodable_app (a b : str) :
  encodable (a ++ b) = encodable a && encodable b.
Proof. apply forallb_app. Qed.

Lemma encodable_py (s : string) : encodable (py s) = true.
Proof.
  unfold py. induction s as [|c s IH]; [reflexivity|]. exact IH.
Qed.

Lemma encodable_str_of_int (n : Z) : encodable (str_of_int n) = true.
Proof. apply encodable_py. Qed.

Lemma encodable_repeat (c : ascii) (n : nat) :
  encodable (repeat (Chr c) n) = true.
Proof. induction n as [|n IH]; [reflexivity | exact IH]. Qed.

Lemma encodable_json_newline (level : nat) :
  encodable (json_newline level) = true.
Proof. apply (encodable_repeat " "). Qed.

Lemma encodable_json_escape (c : char) :
  encodable (json_escape c) = negb (is_lone c).
Proof.
  destruct c as [[[] [] [] [] [] [] [] []] | [[] [] [] [] [] [] [] []]];
    reflexivity.
Qed.

Lemma encodable_flat_map (f : char -> str) (s : str) :
  (forall c, encodable (f c) = negb (is_lone c)) ->
  encodable (flat_map f s) = encodable s.
Proof.
  intros Hf. induction s as [|c s IH]; [reflexivity|].
  cbn [flat_map]. rewrite encodable_app, Hf, IH. reflexivity.
Qed.

Lemma encodable_json_string (s : str) :
  encodable (json_string s) = encodable s.
Proof.
  unfold json_string.
  change (encodable (quote :: flat_map json_escape s ++ [quote]))
    with (encodable (flat_map json_escape s ++ [quote])).
  rewrite encodable_app,
    (encodable_flat_map json_escape s encodable_json_escape).
  apply andb_true_r.
Qed.

Lemma str_int_within (n : Z) :
  within_digits n = true -> str_int n = Return (str_of_int n).
Proof. intros H. unfold str_int. rewrite H. reflexivity. Qed.

Lemma write_chunks_app (a b : list (result str)) (written : str) :
  write_chunks (a ++ b) written
  = match write_chunks a written with
    | (text, None) => write_chunks b text
    | (text, Some e) => (text, Some e)
    end.
Proof.
  revert written. induction a as [|[text | e] a IH]; intros written;
    cbn [app write_chunks]; try reflexivity.
  destruct (encode_error text); [reflexivity | apply IH].
Qed.

Lemma writes_nil : writes [] [].
Proof. intros written. cbn. rewrite app_nil_r. reflexivity. Qed.

Lemma writes_app (a b : list (result str)) (ta tb : str) :
  writes a ta -> writes b tb -> writes (a ++ b) (ta ++ tb).
Proof.
  intros Ha Hb written. rewrite write_chunks_app, Ha, Hb, app_assoc.
  reflexivity.
Qed.

Lemma writes_one (text : str) :
  encodable text = true -> writes [Return text] text.
Proof.
  intros H written. cbn [write_chunks].
  rewrite encode_error_none by exact H. reflexivity.
Qed.

Lemma writes_cons (text : str) (chunks : list (result str)) (rest : str) :
  encodable text = true -> writes chunks rest ->
  writes (Return text :: chunks) (text ++ rest).
Proof.
  intros Htext Hrest. apply (writes_app [Return text]);
    [apply writes_one; exact Htext | exact Hrest].
Qed.

Lemma join_cons {A : Type} (sep x : list A) (rest : list (list A)) :
  join sep (x :: rest) = x ++ flat_map (fun y => sep ++ y) rest.
Proof.
  revert x. induction rest as [|y rest IH]; intros x.
  - cbn. rewrite app_nil_r. reflexivity.
  - change (join sep (x :: y :: rest)) with (x ++ sep ++ join sep (y :: rest)).
    rewrite IH. cbn [flat_map]. rewrite <- app_assoc. reflexivity.
Qed.

Lemma writes_value (v : value) :
  writable_value v = true -> writes [json_value_chunk v] (json_value v).
Proof.
  intros H. destruct v as [s | n]; cbn [json_value_chunk json_value] in *.
  - apply writes_one. rewrite encodable_json_string. exact H.
  - rewrite str_int_within by exact H. apply writes_one.
    apply encodable_str_of_int.
Qed.

Lemma writes_member (key : string) (v : value) :
  writable_value v = true ->
  writes [Return (json_string (py key)); Return (py ": ");
          json_value_chunk v]
    (json_member (key, v)).
Proof.
  intros H. unfold json_member. cbn [fst snd].
  apply writes_cons;
    [rewrite encodable_json_string; apply encodable_py|].
  apply writes_cons; [apply encodable_py|].
  apply writes_value. exact H.
Qed.

Lemma writes_more_members (level : nat) (d : dict) :
  writable_dict d = true ->
  writes (member_chunks level false d)
    (flat_map (fun text => (py "," ++ json_newline level) ++ text)
       (map json_member d)).
Proof.
  induction d as [|[key v] d IH]; intros H; [apply writes_nil|].
  cbn [writable_dict forallb snd] in H. apply andb_true_iff in H as [Hv H].
  cbn [member_chunks map flat_map].
  rewrite <- (app_assoc (py "," ++ json_newline level)).
  apply writes_app.
  - apply writes_one. rewrite encodable_app, encodable_json_newline.
    reflexivity.
  - apply (writes_app [_; _; _]);
      [apply writes_member; exact Hv | apply IH; exact H].
Qed.

Lemma writes_members (level : nat) (d : dict) :
  writable_dict d = true ->
  writes (member_chunks level true d)
    (join (py "," ++ json_newline level) (map json_member d)).
Proof.
  destruct d as [|[key v] d]; intros H; [apply writes_nil|].
  cbn [writable_dict forallb snd] in H. apply andb_true_iff in H as [Hv H].
  cbn [map]. unfold str. rewrite join_cons. cbn [member_chunks app].
  apply (writes_app [_; _; _]);
    [apply writes_member; exact Hv | apply writes_more_members; exact H].
Qed.

Lemma writes_dict (level : nat) (d : dict) :
  writable_dict d = true -> writes (dict_chunks level d) (json_dict level d).
Proof.
  intros H. destruct d as [|kv d]; [apply writes_one; reflexivity|].
  unfold dict_chunks, json_dict.
  apply (writes_app [_; _] _ (py "{" ++ json_newline (S level))).
  - apply writes_cons; [reflexivity|].
    apply writes_one. apply encodable_json_newline.
  - apply writes_app; [apply writes_members; exact H|].
    apply writes_cons; [apply encodable_json_newline|].
    apply writes_one. reflexivity.
Qed.

Lemma writes_more_items (ds : list dict) :
  forallb writable_dict ds = true ->
  writes (item_chunks false ds)
    (flat_map (fun text => (py "," ++ json_newline 1) ++ text)
       (map (json_dict 1) ds)).
Proof.
  induction ds as [|d ds IH]; intros H; [apply writes_nil|].
  cbn [forallb] in H. apply andb_true_iff in H as [Hd H].
  cbn [item_chunks map flat_map].
  rewrite <- (app_assoc (py "," ++ json_newline 1)).
  apply writes_cons; [reflexivity|].
  apply writes_app; [apply writes_dict; exact Hd | apply IH; exact H].
Qed.

(** When every value can be written, [json.dump] writes the whole
    document. *)
Lemma writes_dump (ds : list dict) :
  forallb writable_dict ds = true -> writes (json_chunks ds) (json_dump ds).
Proof.
  intros H. destruct ds as [|d ds]; [apply writes_one; reflexivity|].
  cbn [forallb] in H. apply andb_true_iff in H as [Hd H].
  unfold json_chunks, json_dump. cbn [map]. unfold str. rewrite join_cons.
  cbn [item_chunks].
  change (writes
            ((Return (py "[" ++ json_newline 1)
                :: dict_chunks 1 d ++ item_chunks false ds)
               ++ [Return (json_newline 0); Return (py "]")])
            (((py "[" ++ json_newline 1)
                ++ json_dict 1 d
                ++ flat_map (fun y => (py "," ++ json_newline 1) ++ y)
                     (map (json_dict 1) ds))
               ++ json_newline 0 ++ py "]")).
  apply writes_app.
  - apply writes_cons; [reflexivity|].
    apply writes_app;
      [apply writes_dict; exact Hd | apply writes_more_items; exact H].
  - apply writes_cons; [reflexivity | apply writes_one; reflexivity].
Qed.

Lemma writable_to_dict (r : record) :
  writable r = true -> writable_dict (to_dict r) = true.
Proof.
  destruct r as [url u p src line | error src]; cbn;
    rewrite ?andb_true_r; intros H; exact H || (rewrite <- !andb_assoc in H; exact H).
Qed.

Lemma writable_dicts (rs : list record) :
  forallb writable rs = true ->
  forallb writable_dict (map to_dict rs) = true.
Proof.
  induction rs as [|r rs IH]; intros H; [reflexivity|].
  cbn [forallb map] in *. apply andb_true_iff in H as [Hr H].
  rewrite writable_to_dict, IH by assumption. reflexivity.
Qed.

(** ** The csv and the txt output *)

Lemma encodable_join (sep : str) (items : list str) :
  encodable sep = true ->
  encodable (join sep items) = forallb encodable items.
Proof.
  intros Hsep. induction items as [|x items IH]; [reflexivity|].
  unfold str in *. rewrite join_cons. clear IH.
  cbn [forallb]. rewrite encodable_app. f_equal.
  induction items as [|y items IH]; [reflexivity|].
  cbn [flat_map forallb]. rewrite !encodable_app, Hsep, IH. reflexivity.
Qed.

Lemma encodable_csv_quoted (field : str) :
  encodable (csv_quoted field) = encodable field.
Proof.
  unfold csv_quoted. destruct (existsb csv_special field); [|reflexivity].
  change (encodable (quote :: ?x)) with (encodable x).
  rewrite encodable_app, encodable_flat_map; [apply andb_true_r|].
  intros [a | b]; [|reflexivity].
  destruct (char_eqb (Chr a) quote); reflexivity.
Qed.

Lemma encodable_csv_line (row : list str) :
  encodable (csv_line row) = forallb encodable row.
Proof.
  unfold csv_line. rewrite encodable_app, encodable_join by reflexivity.
  rewrite andb_true_r. induction row as [|x row IH]; [reflexivity|].
  cbn [map forallb]. rewrite encodable_csv_quoted, IH. reflexivity.
Qed.

Lemma csv_row_record (url u p src : str) (line : Z) :
  within_digits line = true ->
  csv_row (match_record url u p src line)
  = Return [url; u; p; src; str_of_int line].
Proof.
  intros H. unfold csv_row.
  change (wrong_fields (match_record url u p src line)) with (@nil string).
  cbn. rewrite str_int_within by exact H. reflexivity.
Qed.

Lemma txt_line_record (url u p src : str) (line : Z) :
  within_digits line = true ->
  txt_line (match_record url u p src line)
  = Return (record_line (MatchRecord url u p src line)).
Proof.
  intros H. unfold txt_line. cbn.
  rewrite str_int_within by exact H. reflexivity.
Qed.

Lemma encodable_record_line (r : record) :
  is_match r = true -> writable r = true ->
  encodable (record_line r) = true.
Proof.
  destruct r as [url u p src line | error src]; [|discriminate].
  intros _ H. cbn [writable] in H.
  repeat (apply andb_true_iff in H as [H ?]).
  cbn [record_line].
  rewrite !encodable_app, !encodable_py, encodable_str_of_int.
  repeat (apply andb_true_iff; split); try assumption; reflexivity.
Qed.

Lemma encodable_record_row (r : record) :
  is_match r = true -> writable r = true ->
  forallb encodable (record_row r) = true.
Proof.
  destruct r as [url u p src line | error src]; [|discriminate].
  intros _ H. cbn [writable] in H.
  repeat (apply andb_true_iff in H as [H ?]).
  cbn [record_row forallb]. rewrite encodable_str_of_int.
  repeat (apply andb_true_iff; split); try assumption; reflexivity.
Qed.

Lemma writable_within (url u p src : str) (line : Z) :
  writable (MatchRecord url u p src line) = true ->
  within_digits line = true.
Proof. cbn [writable]. intros H. apply andb_true_iff in H as [_ H]. exact H. Qed.

Lemma csv_rows_records (rs : list record) (written : list (list str)) :
  forallb writable (filter is_match rs) = true ->
  csv_rows (map to_dict rs) written
  = (written ++ map record_row (filter is_match rs), None).
Proof.
  revert written. induction rs as [|r rs IH]; intros written H;
    cbn [map csv_rows filter].
  - rewrite app_nil_r. reflexivity.
  - destruct r as [url u p src line | error src];
      cbn [to_dict is_match filter forallb] in *.
    + apply andb_true_iff in H as [Hr H].
      change (has_key "error" (match_record url u p src line)) with false.
      rewrite csv_row_record by exact (writable_within _ _ _ _ _ Hr).
      rewrite encode_error_none.
      * cbn [negb map]. rewrite IH, <- app_assoc by exact H. reflexivity.
      * rewrite encodable_csv_line.
        apply (encodable_record_row (MatchRecord url u p src line));
          [reflexivity | exact Hr].
    + change (has_key "error" (error_record error src)) with true.
      cbn [negb]. apply IH. exact H.
Qed.

Lemma txt_lines_records (rs : list record) (written : str) :
  forallb writable (filter is_match rs) = true ->
  txt_lines (map to_dict rs) written
  = (written ++ concat (map record_line (filter is_match rs)), None).
Proof.
  revert written. induction rs as [|r rs IH]; intros written H;
    cbn [map txt_lines filter concat].
  - rewrite app_nil_r. reflexivity.
  - destruct r as [url u p src line | error src];
      cbn [to_dict is_match filter forallb] in *.
    + apply andb_true_iff in H as [Hr H].
      change (has_key "error" (match_record url u p src line)) with false.
      rewrite txt_line_record by exact (writable_within _ _ _ _ _ Hr).
      rewrite encode_error_none.
      * cbn [negb map concat]. rewrite IH, <- app_assoc by exact H.
        reflexivity.
      * apply (encodable_record_line (MatchRecord url u p src line));
          [reflexivity | exact Hr].
    + change (has_key "error" (error_record error src)) with true.
      cbn [negb]. apply IH. exact H.
Qed.

Lemma to_dict_keys (r : record) : NoDup (keys (to_dict r)).
Proof.
  destruct r; cbn; repeat constructor; cbn;
    intuition discriminate.
Qed.

(** ** The format of the output *)

Lemma unsupported_not_any (output_format : str) :
  supported_format output_format = false ->
  output_format <> py "json" /\ output_format <> py "csv"
  /\ output_format <> py "txt".
Proof.
  unfold supported_format.
  destruct (list_eq_dec char_dec output_format (py "json"));
    [discriminate|].
  destruct (list_eq_dec char_dec output_format (py "csv"));
    [discriminate|].
  destruct (list_eq_dec char_dec output_format (py "txt"));
    [discriminate|]. auto.
Qed.

Lemma save_unsupported (open_error write_error : option str)
    (rs : list dict) (output_format : str) :
  supported_format output_format = false ->
  save_results open_error write_error rs output_format
  = Saved None
      [py "An error occurred while saving the results: "
         ++ unsupported_message].
Proof.
  intros H. destruct (unsupported_not_any _ H) as (Hj & Hc & Ht).
  unfold save_results.
  destruct (list_eq_dec char_dec output_format (py "json")); [congruence|].
  destruct (list_eq_dec char_dec output_format (py "csv")); [congruence|].
  destruct (list_eq_dec char_dec output_format (py "txt")); [congruence|].
  reflexivity.
Qed.

(** ** The engine and the grammar *)

Lemma run_denotes {R : Type} (r : regex) (s : str) (g : groups)
    (k : str -> str -> groups -> option R) (x : R) :
  run r s g k = Some x ->
  exists m t g', s = m ++ t /\ denotes r m /\ k m t g' = Some x.
Proof.
  revert s g k. induction r as [c | p | p | r1 IH1 r2 IH2 | r IH | n r IH];
    intros s g k H; cbn [run denotes] in *.
  - destruct s as [|y s]; [discriminate|].
    destruct (char_eqb (lower_char y) (lower_char c)) eqn:Hy;
      [|discriminate].
    exists [y], s, g. repeat split; [|exact H]. exists y. auto.
  - apply many0_sound in H as (m & t & -> & Hm & Hk).
    exists m, t, g. auto.
  - apply many1_sound in H as (m & t & -> & Hne & Hm & Hk).
    exists m, t, g. auto.
  - apply IH1 in H as (m1 & t1 & g1 & -> & Hd1 & H).
    apply IH2 in H as (m2 & t2 & g2 & -> & Hd2 & H).
    exists (m1 ++ m2), t2, g2. rewrite <- app_assoc.
    repeat split; [|exact H]. exists m1, m2. auto.
  - destruct (run r s g k) as [y|] eqn:Hr.
    + injection H as ->. apply IH in Hr as (m & t & g' & -> & Hd & Hk).
      exists m, t, g'. auto.
    + exists [], s, g. auto.
  - apply IH in H as (m & t & g' & -> & Hd & Hk).
    exists m, t, (set_group n m g'). auto.
Qed.

(** Without groups the groups are left as they were. *)
Lemma run_denotes_plain {R : Type} (r : regex) (s : str) (g : groups)
    (k : str -> str -> groups -> option R) (x : R) :
  group_free r = true ->
  run r s g k = Some x ->
  exists m t, s = m ++ t /\ denotes r m /\ k m t g = Some x.
Proof.
  revert s g k. induction r as [c | p | p | r1 IH1 r2 IH2 | r IH | n r IH];
    intros s g k Hgf H; cbn [run denotes group_free] in *.
  - destruct s as [|y s]; [discriminate|].
    destruct (char_eqb (lower_char y) (lower_char c)) eqn:Hy;
      [|discriminate].
    exists [y], s. repeat split; [|exact H]. exists y. auto.
  - apply many0_sound in H as (m & t & -> & Hm & Hk). exists m, t. auto.
  - apply many1_sound in H as (m & t & -> & Hne & Hm & Hk).
    exists m, t. auto.
  - apply andb_true_iff in Hgf as [H1 H2].
    apply IH1 in H as (m1 & t1 & -> & Hd1 & H); [|exact H1].
    apply IH2 in H as (m2 & t2 & -> & Hd2 & H); [|exact H2].
    exists (m1 ++ m2), t2. rewrite <- app_assoc.
    repeat split; [|exact H]. exists m1, m2. auto.
  - destruct (run r s g k) as [y|] eqn:Hr.
    + injection H as ->. apply IH in Hr as (m & t & -> & Hd & Hk);
        [|exact Hgf].
      exists m, t. auto.
    + exists [], s. auto.
  - discriminate.
Qed.

Lemma many0_complete {R : Type} (p : char -> bool) (m t : str)
    (k : str -> str -> option R) :
  forallb p m = true -> k m t <> None -> many0 p (m ++ t) k <> None.
Proof.
  revert k. induction m as [|c m IH]; intros k Hm Hk.
  - cbn [app]. destruct t as [|c t]; cbn [many0]; [exact Hk|].
    destruct (p c); [|exact Hk].
    destruct (many0 p t _); [discriminate | exact Hk].
  - cbn [forallb] in Hm. apply andb_true_iff in Hm as [Hc Hm].
    cbn [app many0]. rewrite Hc.
    specialize (IH (fun m' t' => k (c :: m') t') Hm Hk).
    destruct (many0 p (m ++ t) _); [discriminate | congruence].
Qed.

(** The engine misses nothing: when some split of the text is in the
    language and the continuation accepts it, the engine succeeds. *)
Lemma run_complete {R : Type} (r : regex) (m t : str) (g : groups)
    (k : str -> str -> groups -> option R) :
  denotes r m -> (forall g', k m t g' <> None) ->
  run r (m ++ t) g k <> None.
Proof.
  revert m t g k.
  induction r as [c | p | p | r1 IH1 r2 IH2 | r IH | n r IH];
    intros m t g k Hd Hk; cbn [run denotes] in *.
  - destruct Hd as (x & -> & Hx). cbn [app]. unfold like in Hx.
    rewrite Hx. apply Hk.
  - apply many0_complete; [exact Hd | apply Hk].
  - destruct Hd as [Hne Hd]. destruct m as [|c m]; [congruence|].
    cbn [forallb] in Hd. apply andb_true_iff in Hd as [Hc Hd].
    cbn [app many1]. rewrite Hc.
    apply (many0_complete p m t (fun m' t' => k (c :: m') t' g));
      [exact Hd | apply Hk].
  - destruct Hd as (m1 & m2 & -> & Hd1 & Hd2). rewrite <- app_assoc.
    apply IH1; [exact Hd1|]. intros g1. apply IH2; [exact Hd2|].
    intros g2. apply Hk.
  - destruct Hd as [-> | Hd].
    + cbn [app]. destruct (run r t g k); [discriminate | apply Hk].
    + specialize (IH m t g k Hd Hk).
      destruct (run r (m ++ t) g k); [discriminate | congruence].
  - apply IH; [exact Hd|]. intros g'. apply Hk.
Qed.

Lemma search_app (r : regex) (pre s : str) :
  match_here r s <> None -> search r (pre ++ s) <> None.
Proof.
  intros H. induction pre as [|c pre IH]; cbn [app].
  - destruct s; cbn [search]; destruct (match_here r _);
      [discriminate | congruence | discriminate | congruence].
  - cbn [search]. destruct (match_here r (c :: pre ++ s));
      [discriminate | exact IH].
Qed.

(** The leftmost start: nothing matches before the match found. *)
Lemma search_leftmost (s : str) (g : groups) :
  search CREDENTIAL_PATTERN s = Some g ->
  exists pre s', s = pre ++ s'
                 /\ match_here CREDENTIAL_PATTERN s' = Some g
                 /\ no_match_before (length pre) s = true.
Proof.
  induction s as [|c s IH]; cbn [search].
  - destruct (match_here CREDENTIAL_PATTERN []) eqn:H; [|discriminate].
    intros [= ->]. exists [], []. auto.
  - destruct (match_here CREDENTIAL_PATTERN (c :: s)) eqn:H.
    + intros [= ->]. exists [], (c :: s). auto.
    + intros Hs. apply IH in Hs as (pre & s' & -> & Hm & Hno).
      exists (c :: pre), s'. repeat split; [exact Hm|].
      cbn [length no_match_before app]. rewrite H, Hno. reflexivity.
Qed.

Lemma like_iff (c x : char) : like c x = true <-> lower_char x = lower_char c.
Proof. unfold like. apply char_eqb_eq. Qed.

Lemma like_slash_eq (x : char) : like slash x = true -> x = slash.
Proof. rewrite like_slash. apply char_eqb_eq. Qed.

Lemma denotes_port (m : str) :
  denotes (Opt port_regex) m
  <-> (m = [] \/ exists P, m = colon :: P /\ P <> []
                           /\ forallb is_digit P = true).
Proof.
  cbn [denotes port_regex]. split.
  - intros [-> | (m1 & P & -> & (x & -> & Hx) & HP1 & HP2)]; [left; auto|].
    right. apply like_colon_eq in Hx as ->. exists P. auto.
  - intros [-> | (P & -> & HP1 & HP2)]; [left; auto|].
    right. exists [colon], P. repeat split; try assumption.
    exists colon. auto.
Qed.

Lemma denotes_path (m : str) :
  denotes (Opt path_regex) m
  <-> (m = [] \/ exists p, m = slash :: p /\ forallb path_char p = true).
Proof.
  cbn [denotes path_regex]. split.
  - intros [-> | (m1 & p & -> & (x & -> & Hx) & Hp)]; [left; auto|].
    right. apply like_slash_eq in Hx as ->. exists p. auto.
  - intros [-> | (p & -> & Hp)]; [left; auto|].
    right. exists [slash], p. repeat split; try assumption.
    exists slash. auto.
Qed.

Lemma denotes_url (url : str) : denotes url_regex url <-> url_text url.
Proof.
  unfold url_text, url_regex, after_host.
  cbn [py list_ascii_of_string map lits].
  cbn [denotes]. fold (denotes (Opt port_regex)).
  fold (denotes (Opt path_regex)).
  split.
  - intros (a1 & r1 & -> & (x1 & -> & H1) &
            a2 & r2 & -> & (x2 & -> & H2) &
            a3 & r3 & -> & (x3 & -> & H3) &
            a4 & r4 & -> & (x4 & -> & H4) &
            ms & r5 & -> & Hs &
            a6 & r6 & -> & (c1 & -> & Hc1) &
            a7 & r7 & -> & (c2 & -> & Hc2) &
            a8 & r8 & -> & (c3 & -> & Hc3) &
            H & r9 & -> & (HH1 & HH2) &
            port & path & -> & Hport & Hpath).
    apply like_colon_eq in Hc1 as ->. apply like_slash_eq in Hc2 as ->.
    apply like_slash_eq in Hc3 as ->.
    apply like_iff in H1, H2, H3, H4.
    apply denotes_port in Hport. apply denotes_path in Hpath.
    exists ([x1; x2; x3; x4] ++ ms), H, port, path.
    repeat split; try assumption.
    destruct Hs as [-> | (x5 & -> & H5)].
    + left. cbn. rewrite H1, H2, H3, H4. reflexivity.
    + right. apply like_iff in H5. cbn.
      rewrite H1, H2, H3, H4, H5. reflexivity.
  - intros (sch & H & port & path & -> & Hsch & HH1 & HH2 & Hport & Hpath).
    apply denotes_port in Hport. apply denotes_path in Hpath.
    assert (Hs : exists x1 x2 x3 x4 ms,
               sch = [x1; x2; x3; x4] ++ ms
               /\ like (Chr "h") x1 = true /\ like (Chr "t") x2 = true
               /\ like (Chr "t") x3 = true /\ like (Chr "p") x4 = true
               /\ (ms = [] \/ exists x5, ms = [x5] /\ like (Chr "s") x5 = true)).
    { destruct Hsch as [Hsch | Hsch];
        destruct sch as [|x1 [|x2 [|x3 [|x4 ms]]]]; try discriminate Hsch;
        cbn in Hsch; injection Hsch as E1 E2 E3 E4 Ems;
        exists x1, x2, x3, x4, ms; rewrite !like_iff;
        repeat split; try assumption.
      - left. destruct ms; [reflexivity | discriminate].
      - right. destruct ms as [|x5 [|]]; try discriminate Ems.
        injection Ems as E5. exists x5. rewrite like_iff. auto. }
    destruct Hs as (x1 & x2 & x3 & x4 & ms & -> & H1 & H2 & H3 & H4 & Hms).
    exists [x1], ([x2; x3; x4] ++ ms ++ py "://" ++ H ++ port ++ path).
    split; [rewrite <- !app_assoc; reflexivity|].
    split; [exists x1; auto|].
    exists [x2], ([x3; x4] ++ ms ++ py "://" ++ H ++ port ++ path).
    split; [reflexivity|]. split; [exists x2; auto|].
    exists [x3], ([x4] ++ ms ++ py "://" ++ H ++ port ++ path).
    split; [reflexivity|]. split; [exists x3; auto|].
    exists [x4], (ms ++ py "://" ++ H ++ port ++ path).
    split; [reflexivity|]. split; [exists x4; auto|].
    exists ms, (py "://" ++ H ++ port ++ path).
    split; [reflexivity|]. split; [exact Hms|].
    exists [colon], (py "//" ++ H ++ port ++ path).
    split; [reflexivity|]. split; [exists colon; auto|].
    exists [slash], (py "/" ++ H ++ port ++ path).
    split; [reflexivity|]. split; [exists slash; auto|].
    exists [slash], (H ++ port ++ path).
    split; [reflexivity|]. split; [exists slash; auto|].
    exists H, (port ++ path). split; [reflexivity|].
    split; [auto|]. exists port, path. auto.
Qed.

Lemma denotes_credential (m : str) :
  denotes CREDENTIAL_PATTERN m <-> credential_text m.
Proof.
  unfold credential_text, CREDENTIAL_PATTERN, tail_regex.
  cbn [denotes]. fold (denotes url_regex). split.
  - intros (url & r1 & -> & Hurl &
            a & r2 & -> & (c1 & -> & Hc1) &
            U & r3 & -> & (HU1 & HU2) &
            b & PW & -> & (c2 & -> & Hc2) & HP1 & HP2).
    apply like_colon_eq in Hc1 as ->. apply like_colon_eq in Hc2 as ->.
    apply denotes_url in Hurl. exists url, U, PW. auto 10.
  - intros (url & U & PW & -> & Hurl & HU1 & HU2 & HP1 & HP2).
    apply denotes_url in Hurl.
    exists url, (colon :: U ++ colon :: PW). repeat split;
      [exact Hurl|].
    exists [colon], (U ++ colon :: PW). split; [reflexivity|].
    split; [exists colon; auto|].
    exists U, (colon :: PW). split; [reflexivity|]. split; [auto|].
    exists [colon], PW. split; [reflexivity|].
    split; [exists colon; auto | auto].
Qed.

(** What is extracted is the leftmost credential of the line, its
    password as long as its class allows. *)
Lemma extract_credential (line url username password : str) :
  extract line = Some (url, username, password) ->
  exists pre post,
    line = pre ++ url ++ colon :: username ++ colon :: password ++ post
    /\ url_text url
    /\ username <> [] /\ forallb user_char username = true
    /\ password <> [] /\ forallb pass_char password = true
    /\ stops pass_char post = true
    /\ no_match_before (length pre) line = true.
Proof.
  unfold extract. destruct (search CREDENTIAL_PATTERN line) as [g|] eqn:Hs;
    [|discriminate].
  cbn [option_map]. intros Hg.
  apply search_leftmost in Hs as (pre & s & -> & Hm & Hno).
  unfold match_here, CREDENTIAL_PATTERN in Hm. cbn [run] in Hm.
  apply run_denotes_plain in Hm as (m & t & -> & Hurl & Hm); [|reflexivity].
  apply denotes_url in Hurl.
  unfold tail_regex in Hm. cbn [run] in Hm.
  destruct t as [|x t]; [discriminate|].
  destruct (char_eqb (lower_char x) (lower_char colon)) eqn:Hx;
    [|discriminate].
  apply like_colon_eq in Hx as ->.
  apply many1_sound in Hm as (u & t2 & -> & Hu1 & Hu2 & Hm).
  destruct t2 as [|y t2]; [discriminate|].
  destruct (char_eqb (lower_char y) (lower_char colon)) eqn:Hy;
    [|discriminate].
  apply like_colon_eq in Hy as ->.
  apply many1_longest in Hm as (pw & post & -> & Hp1 & Hp2 & Hp3 & Hm);
    [|discriminate].
  injection Hm as <-. unfold groups3, set_group in Hg. cbn in Hg.
  injection Hg as <- <- <-.
  exists pre, post. repeat split; assumption.
Qed.

Lemma credential_matches (m post : str) :
  credential_text m -> match_here CREDENTIAL_PATTERN (m ++ post) <> None.
Proof.
  intros Hm. apply denotes_credential in Hm. unfold match_here.
  apply run_complete; [exact Hm | discriminate].
Qed.

Lemma url_text_separator (url : str) :
  url_text url ->
  exists a b, url = a ++ py "://" ++ b.
Proof.
  intros (sch & H & port & path & -> & _). exists sch, (H ++ port ++ path).
  reflexivity.
Qed.

(** ** Lines and their numbers *)

Lemma scan_lines_cons (source : str) (keywords : list str) (n : Z)
    (line : str) (ls : list str) :
  scan_lines source keywords n (line :: ls) []
  = scan_line source keywords n line []
      ++ scan_lines source keywords (n + 1) ls [].
Proof. cbn [scan_lines]. apply scan_lines_acc. Qed.

Lemma scan_line_hit (source : str) (keywords : list str) (n : Z)
    (line : str) :
  scan_line source keywords n line []
  = match extract line with
    | Some (url, u, pw) =>
        if keyword_hit keywords url
        then [match_record url u pw source n] else []
    | None => []
    end.
Proof.
  unfold scan_line. destruct (extract line) as [[[url u] pw]|];
    [destruct (keyword_hit keywords url)|]; reflexivity.
Qed.

Lemma scan_lines_in (source : str) (keywords : list str) (ls : list str)
    (n : Z) (d : dict) :
  In d (scan_lines source keywords n ls [])
  <-> exists i line url u pw,
        nth_error ls i = Some line
        /\ extract line = Some (url, u, pw)
        /\ keyword_occurs keywords url
        /\ d = match_record url u pw source (n + Z.of_nat i).
Proof.
  revert n. induction ls as [|l ls IH]; intros n.
  - cbn. split; [contradiction|].
    intros (i & line & url & u & pw & H & _). destruct i; discriminate H.
  - rewrite scan_lines_cons, in_app_iff, IH, scan_line_hit. split.
    + intros [H | (i & line & url & u & pw & Hn & He & Hk & ->)].
      * destruct (extract l) as [[[url u] pw]|] eqn:He; [|contradiction].
        destruct (keyword_hit keywords url) eqn:Hk; [|contradiction].
        destruct H as [<- | []].
        exists 0, l, url, u, pw. cbn [nth_error Z.of_nat].
        rewrite Z.add_0_r. apply keyword_hit_spec in Hk. auto.
      * exists (S i), line, url, u, pw. cbn [nth_error].
        repeat split; try assumption. f_equal. lia.
    + intros (i & line & url & u & pw & Hn & He & Hk & ->).
      destruct i as [|i]; cbn [nth_error] in Hn.
      * injection Hn as ->. left. rewrite He.
        apply keyword_hit_spec in Hk. rewrite Hk. left.
        cbn [Z.of_nat]. rewrite Z.add_0_r. reflexivity.
      * right. exists i, line, url, u, pw.
        repeat split; try assumption. f_equal. lia.
Qed.

Lemma scan_lines_count (source : str) (keywords : list str)
    (ls : list str) (n : Z) :
  length (scan_lines source keywords n ls [])
  = length (filter (line_hits keywords) ls).
Proof.
  revert n. induction ls as [|l ls IH]; intros n; [reflexivity|].
  rewrite scan_lines_cons, length_app, IH, scan_line_hit.
  cbn [filter]. unfold line_hits at 2.
  destruct (extract l) as [[[url u] pw]|]; [|reflexivity].
  destruct (keyword_hit keywords url); reflexivity.
Qed.

Lemma scan_lines_from (source : str) (keywords : list str)
    (ls : list str) (n : Z) :
  Forall (fun d => (n <= line_of d)%Z) (scan_lines source keywords n ls []).
Proof.
  apply Forall_forall. intros d Hd.
  apply scan_lines_in in Hd as (i & line & url & u & pw & _ & _ & _ & ->).
  cbn. lia.
Qed.

Lemma scan_lines_sorted (source : str) (keywords : list str)
    (ls : list str) (n : Z) :
  StronglySorted Z.lt
    (map line_of (scan_lines source keywords n ls [])).
Proof.
  revert n. induction ls as [|l ls IH]; intros n; [constructor|].
  rewrite scan_lines_cons, scan_line_hit.
  assert (Htail : Forall (fun k => (n < k)%Z)
                    (map line_of
                       (scan_lines source keywords (n + 1) ls []))).
  { apply Forall_map.
    eapply Forall_impl; [|apply scan_lines_from].
    cbn. intros d Hd. lia. }
  destruct (extract l) as [[[url u] pw]|]; [|apply IH].
  destruct (keyword_hit keywords url); [|apply IH].
  cbn [app map]. constructor; [apply IH | exact Htail].
Qed.

(** ** The attempts of one file *)

Lemma caught_decode_class (e : exn) :
  caught_by ExceptUnicodeDecodeError e = true
  <-> exn_class_of e = UnicodeDecodeError.
Proof.
  unfold caught_by. destruct (exn_class_of e); split; intros H;
    try reflexivity; discriminate H.
Qed.

Lemma no_decode_fails (f : file) (encs : list encoding) :
  first_decode_from f encs = None ->
  exists error, read_failure_from f encs = Some error.
Proof.
  induction encs as [|enc encs IH]; cbn [first_decode_from read_failure_from].
  - intros _. eexists. reflexivity.
  - destruct (ending (open_as f enc)) as [[c text]|]; [|discriminate].
    destruct c; cbn; try (intros _; eexists; reflexivity). exact IH.
Qed.

Lemma decode_not_failure (f : file) (encs : list encoding) (ls : list str) :
  first_decode_from f encs = Some ls -> read_failure_from f encs = None.
Proof.
  induction encs as [|enc encs IH]; cbn [first_decode_from read_failure_from];
    [discriminate|].
  destruct (ending (open_as f enc)) as [[c text]|]; [|reflexivity].
  destruct c; cbn; try discriminate. exact IH.
Qed.

(** With no keyword nothing is appended. *)
Lemma scan_lines_no_keywords (source : str) (ls : list str) (n : Z)
    (rs : list dict) :
  scan_lines source [] n ls rs = rs.
Proof.
  revert n rs. induction ls as [|l ls IH]; intros n rs; cbn [scan_lines];
    [reflexivity|].
  rewrite IH. unfold scan_line.
  destruct (extract l) as [[[url u] pw]|]; reflexivity.
Qed.

Lemma scan_lines_good (source : str) (keywords : list str)
    (ls : list str) (n : Z) (rs : list dict) :
  (1 <= n)%Z ->
  Forall (good_record source keywords) rs ->
  Forall (good_record source keywords)
    (scan_lines source keywords n ls rs).
Proof.
  intros Hn Hrs. rewrite scan_lines_acc. apply Forall_app. split;
    [exact Hrs|].
  apply Forall_forall. intros d Hd.
  apply scan_lines_in in Hd as (i & line & url & u & pw & _ & He & Hk & ->).
  apply extract_credential in He
    as (pre & post & _ & Hurl & Hu & _ & Hp & _).
  exists url, u, pw, (n + Z.of_nat i)%Z. repeat split; try assumption. lia.
Qed.

Lemma try_encodings_good (f : file) (keywords : list str)
    (encs : list encoding) (acc rs : list dict) :
  Forall (good_record (file_name f) keywords) acc ->
  try_encodings f keywords encs acc = Return rs ->
  Forall (good_record (file_name f) keywords) rs
  \/ exists error, rs = [error_record error (file_name f)].
Proof.
  revert acc. induction encs as [|enc encs IH]; intros acc Hacc;
    cbn [try_encodings].
  - intros [= <-]. right. eexists. reflexivity.
  - unfold read_with.
    pose proof (scan_lines_good (file_name f) keywords
                  (lines (open_as f enc)) 1 acc (Z.le_refl 1) Hacc) as Hg.
    destruct (ending (open_as f enc)) as [e|].
    + destruct (caught_by ExceptUnicodeDecodeError e).
      * apply IH. exact Hg.
      * rewrite caught_by_exception. intros [= <-]. right.
        eexists. reflexivity.
    + intros [= <-]. left. exact Hg.
Qed.

(** The third encoding is reached after two decode errors only. *)
Lemma try_encodings_same (f f' : file) (keywords : list str)
    (acc : list dict) :
  file_name f = file_name f' ->
  open_as f utf_8 = open_as f' utf_8 ->
  open_as f iso_8859_1 = open_as f' iso_8859_1 ->
  is_decode_error (ending (open_as f utf_8))
  && is_decode_error (ending (open_as f iso_8859_1)) = false ->
  try_encodings f keywords encodings_to_try acc
  = try_encodings f' keywords encodings_to_try acc.
Proof.
  intros Hname H8 H1 Hno. unfold encodings_to_try.
  cbn [try_encodings]. unfold read_with.
  rewrite <- Hname, <- H8, <- H1. unfold is_decode_error in Hno.
  destruct (ending (open_as f utf_8)) as [e|]; [|reflexivity].
  destruct (caught_by ExceptUnicodeDecodeError e); [|reflexivity].
  destruct (ending (open_as f iso_8859_1)) as [e'|]; [|reflexivity].
  destruct (caught_by ExceptUnicodeDecodeError e'); [discriminate|].
  reflexivity.
Qed.

(** ** Saving *)

Lemma supported_is_one (output_format : str) :
  supported_format output_format = true ->
  output_format = py "json" \/ output_format = py "csv"
  \/ output_format = py "txt".
Proof.
  unfold supported_format.
  destruct (list_eq_dec char_dec output_format (py "json")); [auto|].
  destruct (list_eq_dec char_dec output_format (py "csv")); [auto|].
  destruct (list_eq_dec char_dec output_format (py "txt")); [auto|].
  discriminate.
Qed.

Lemma save_open_error (text : str) (write_error : option str)
    (ds : list dict) (output_format : str) :
  supported_format output_format = true ->
  save_results (Some text) write_error ds output_format
  = Saved None [io_error_message text].
Proof.
  intros H. apply supported_is_one in H as [-> | [-> | ->]];
    unfold save_results.
  - destruct (list_eq_dec char_dec (py "json") (py "json")); [|congruence].
    destruct (write_chunks _ _). reflexivity.
  - destruct (list_eq_dec char_dec (py "csv") (py "json"));
      [discriminate|].
    destruct (list_eq_dec char_dec (py "csv") (py "csv")); [|congruence].
    destruct (csv_rows ds _). reflexivity.
  - destruct (list_eq_dec char_dec (py "txt") (py "json"));
      [discriminate|].
    destruct (list_eq_dec char_dec (py "txt") (py "csv"));
      [discriminate|].
    destruct (list_eq_dec char_dec (py "txt") (py "txt")); [|congruence].
    destruct (txt_lines ds _). reflexivity.
Qed.

Lemma save_write_error (text : str) (ds : list dict)
    (output_format : str) :
  supported_format output_format = true ->
  save_results None (Some text) ds output_format
  = Saved (Some Torn) [io_error_message text].
Proof.
  intros H. apply supported_is_one in H as [-> | [-> | ->]];
    unfold save_results.
  - destruct (list_eq_dec char_dec (py "json") (py "json")); [|congruence].
    destruct (write_chunks _ _). reflexivity.
  - destruct (list_eq_dec char_dec (py "csv") (py "json"));
      [discriminate|].
    destruct (list_eq_dec char_dec (py "csv") (py "csv")); [|congruence].
    destruct (csv_rows ds _). reflexivity.
  - destruct (list_eq_dec char_dec (py "txt") (py "json"));
      [discriminate|].
    destruct (list_eq_dec char_dec (py "txt") (py "csv"));
      [discriminate|].
    destruct (list_eq_dec char_dec (py "txt") (py "txt")); [|congruence].
    destruct (txt_lines ds _). reflexivity.
Qed.

Lemma save_csv (ds : list dict) :
  save_results None None ds (py "csv")
  = match csv_rows ds [csv_header] with
    | (rows, None) => Saved (Some (CsvRows rows)) []
    | (rows, Some e) => Saved (Some (CsvRows rows)) (save_handlers e)
    end.
Proof.
  unfold save_results.
  destruct (list_eq_dec char_dec (py "csv") (py "json"));
    [discriminate|].
  destruct (list_eq_dec char_dec (py "csv") (py "csv")); [|congruence].
  change (map (fun key => py key) fieldnames) with csv_header.
  destruct (csv_rows ds [csv_header]) as [rows [raised|]]; reflexivity.
Qed.

Lemma save_txt (ds : list dict) :
  save_results None None ds (py "txt")
  = match txt_lines ds [] with
    | (text, None) => Saved (Some (TxtText text)) []
    | (text, Some e) => Saved (Some (TxtText text)) (save_handlers e)
    end.
Proof.
  unfold save_results.
  destruct (list_eq_dec char_dec (py "txt") (py "json"));
    [discriminate|].
  destruct (list_eq_dec char_dec (py "txt") (py "csv"));
    [discriminate|].
  destruct (list_eq_dec char_dec (py "txt") (py "txt")); [|congruence].
  destruct (txt_lines ds []) as [text [raised|]]; reflexivity.
Qed.

Lemma save_json (ds : list dict) :
  save_results None None ds (py "json")
  = match write_chunks (json_chunks ds) [] with
    | (text, None) => Saved (Some (JsonText text)) []
    | (text, Some e) => Saved (Some (JsonText text)) (save_handlers e)
    end.
Proof.
  unfold save_results.
  destruct (list_eq_dec char_dec (py "json") (py "json")); [|congruence].
  destruct (write_chunks (json_chunks ds) []) as [text [raised|]]; reflexivity.
Qed.

Lemma csv_rows_app (ds ds' : list dict) (written : list (list str)) :
  csv_rows (ds ++ ds') written
  = match csv_rows ds written with
    | (rows, None) => csv_rows ds' rows
    | (rows, Some e) => (rows, Some e)
    end.
Proof.
  revert written. induction ds as [|d ds IH]; intros written;
    cbn [app csv_rows].
  - destruct (csv_rows ds' written) as [rows [e|]]; reflexivity.
  - destruct (negb (has_key "error" d)); [|apply IH].
    destruct (csv_row d) as [row | e]; [|reflexivity].
    destruct (encode_error (csv_line row)); [reflexivity | apply IH].
Qed.

Lemma txt_lines_app (ds ds' : list dict) (written : str) :
  txt_lines (ds ++ ds') written
  = match txt_lines ds written with
    | (text, None) => txt_lines ds' text
    | (text, Some e) => (text, Some e)
    end.
Proof.
  revert written. induction ds as [|d ds IH]; intros written;
    cbn [app txt_lines].
  - destruct (txt_lines ds' written) as [text [e|]]; reflexivity.
  - destruct (negb (has_key "error" d)); [|apply IH].
    destruct (txt_line d) as [line | e]; [|reflexivity].
    destruct (encode_error line); [reflexivity | apply IH].
Qed.

Lemma get_in (key : string) (d : dict) (v : value) :
  get key d = Some v -> In (key, v) d.
Proof.
  induction d as [|[k x] d IH]; cbn [get]; [discriminate|].
  destruct (String.eqb_spec key k) as [-> | Hne].
  - intros [= ->]. left. reflexivity.
  - intros H. right. apply IH. exact H.
Qed.

Lemma csv_row_foreign_key (d : dict) (key : string) :
  In key (keys d) -> ~ In key fieldnames ->
  exists text, csv_row d = Raise (Exn ValueError text).
Proof.
  intros Hin Hout. unfold csv_row.
  destruct (wrong_fields d) as [|k ks] eqn:Hwrong;
    [|eexists; reflexivity].
  exfalso. assert (H : In key (wrong_fields d)).
  { unfold wrong_fields. apply filter_In. split; [exact Hin|].
    destruct (existsb (String.eqb key) fieldnames) eqn:Hex; [|reflexivity].
    apply existsb_exists in Hex as (k & Hk & Heq).
    apply String.eqb_eq in Heq as ->. contradiction. }
  rewrite Hwrong in H. exact H.
Qed.

Lemma encode_error_some (text : str) :
  encodable text = false ->
  exists e, encode_error text = Some e
            /\ exn_class_of e = UnicodeEncodeError.
Proof. apply encode_error_from_some. Qed.

Lemma save_handlers_other (e : exn) :
  exn_class_of e <> OSError ->
  save_handlers e = [other_error_message (exn_text e)].
Proof.
  intros H. unfold save_handlers, caught_by.
  destruct (exn_class_of e); try reflexivity. congruence.
Qed.

(** A match record that cannot be written stops the csv loop and the
    txt loop, with an exception that is no [OSError]. *)
Lemma csv_rows_unwritable (url u p src : str) (line : Z) (rest : list dict)
    (written : list (list str)) :
  writable (MatchRecord url u p src line) = false ->
  exists e,
    csv_rows (match_record url u p src line :: rest) written
    = (written, Some e)
    /\ exn_class_of e <> OSError.
Proof.
  intros H. cbn [csv_rows].
  change (has_key "error" (match_record url u p src line)) with false.
  cbn [negb].
  destruct (within_digits line) eqn:Hline.
  - rewrite csv_row_record by exact Hline.
    destruct (encode_error_some
                (csv_line [url; u; p; src; str_of_int line]))
      as (e & -> & He).
    + rewrite encodable_csv_line. cbn [forallb].
      rewrite encodable_str_of_int. cbn [writable] in H.
      rewrite Hline in H. rewrite !andb_true_r in *.
      rewrite <- !andb_assoc in H. exact H.
    + exists e. split; [reflexivity | congruence].
  - unfold csv_row.
    change (wrong_fields (match_record url u p src line)) with (@nil string).
    cbn. unfold str_int. rewrite Hline. cbn.
    eexists. split; [reflexivity | discriminate].
Qed.

Lemma txt_lines_unwritable (url u p src : str) (line : Z) (rest : list dict)
    (written : str) :
  writable (MatchRecord url u p src line) = false ->
  exists e,
    txt_lines (match_record url u p src line :: rest) written
    = (written, Some e)
    /\ exn_class_of e <> OSError.
Proof.
  intros H. cbn [txt_lines].
  change (has_key "error" (match_record url u p src line)) with false.
  cbn [negb].
  destruct (within_digits line) eqn:Hline.
  - rewrite txt_line_record by exact Hline.
    destruct (encode_error_some
                (record_line (MatchRecord url u p src line)))
      as (e & -> & He).
    + cbn [record_line].
      rewrite !encodable_app, !encodable_py, encodable_str_of_int.
      cbn [writable] in H. rewrite Hline in H.
      rewrite !andb_true_r in *. cbn [andb].
      rewrite <- !andb_assoc in H. exact H.
    + exists e. split; [reflexivity | congruence].
  - unfold txt_line. cbn. unfold str_int. rewrite Hline. cbn.
    eexists. split; [reflexivity | discriminate].
Qed.

Lemma save_handlers_prints (e : exn) : save_handlers e <> [].
Proof.
  unfold save_handlers. destruct (caught_by ExceptIOError e); discriminate.
Qed.

Lemma csv_row_beyond_limit (url u p src : str) (line : Z) :
  within_digits line = false ->
  exists e, csv_row (match_record url u p src line) = Raise e.
Proof.
  intros H. unfold csv_row.
  change (wrong_fields (match_record url u p src line)) with (@nil string).
  cbn. unfold str_int. rewrite H. cbn. eexists. reflexivity.
Qed.

Lemma txt_line_beyond_limit (url u p src : str) (line : Z) :
  within_digits line = false ->
  exists e, txt_line (match_record url u p src line) = Raise e.
Proof.
  intros H. unfold txt_line. cbn. unfold str_int. rewrite H. cbn.
  eexists. reflexivity.
Qed.

(** Whatever the records are, the csv loop writes the rows of the
    first match records, and the txt loop their lines. *)
Lemma csv_rows_prefix (rs : list record) (written : list (list str)) :
  exists k raised,
    csv_rows (map to_dict rs) written
    = (written ++ firstn k (map record_row (filter is_match rs)), raised).
Proof.
  revert written. induction rs as [|r rs IH]; intros written.
  - exists 0, None. cbn. rewrite app_nil_r. reflexivity.
  - destruct r as [url u p src line | error src];
      cbn [map to_dict csv_rows filter is_match].
    + change (has_key "error" (match_record url u p src line)) with false.
      cbn [negb]. destruct (within_digits line) eqn:Hline.
      * rewrite csv_row_record by exact Hline.
        destruct (encode_error (csv_line _)) as [e|].
        -- exists 0, (Some e). cbn. rewrite app_nil_r. reflexivity.
        -- destruct (IH (written ++ [[url; u; p; src; str_of_int line]]))
             as (k & raised & ->).
           exists (S k), raised. cbn [map firstn record_row].
           rewrite <- app_assoc. reflexivity.
      * destruct (csv_row_beyond_limit url u p src line Hline) as [e ->].
        exists 0, (Some e). cbn. rewrite app_nil_r. reflexivity.
    + change (has_key "error" (error_record error src)) with true.
      cbn [negb]. apply IH.
Qed.

Lemma txt_lines_prefix (rs : list record) (written : str) :
  exists k raised,
    txt_lines (map to_dict rs) written
    = (written ++ concat (firstn k (map record_line (filter is_match rs))),
       raised).
Proof.
  revert written. induction rs as [|r rs IH]; intros written.
  - exists 0, None. cbn. rewrite app_nil_r. reflexivity.
  - destruct r as [url u p src line | error src];
      cbn [map to_dict txt_lines filter is_match].
    + change (has_key "error" (match_record url u p src line)) with false.
      cbn [negb]. destruct (within_digits line) eqn:Hline.
      * rewrite txt_line_record by exact Hline.
        destruct (encode_error _) as [e|].
        -- exists 0, (Some e). cbn. rewrite app_nil_r. reflexivity.
        -- destruct (IH (written
                           ++ record_line (MatchRecord url u p src line)))
             as (k & raised & ->).
           exists (S k), raised. cbn [map firstn concat].
           rewrite <- app_assoc. reflexivity.
      * destruct (txt_line_beyond_limit url u p src line Hline) as [e ->].
        exists 0, (Some e). cbn. rewrite app_nil_r. reflexivity.
    + change (has_key "error" (error_record error src)) with true.
      cbn [negb]. apply IH.
Qed.

(** A dict that lacks one of the five keys gives no line. *)
Lemma txt_line_missing_key (d : dict) (key : string) :
  In key fieldnames -> get key d = None -> exists e, txt_line d = Raise e.
Proof.
  intros Hkey Hnone.
  assert (Hfield : forall k text, txt_field d k = Return text ->
                                  get k d <> None).
  { intros k text. unfold txt_field, item.
    destruct (get k d); [discriminate | cbn; discriminate]. }
  unfold txt_line.
  destruct (txt_field d "url") as [t1 | e] eqn:H1;
    [cbn [bind] | eexists; reflexivity].
  destruct (txt_field d "username") as [t2 | e] eqn:H2;
    [cbn [bind] | eexists; reflexivity].
  destruct (txt_field d "password") as [t3 | e] eqn:H3;
    [cbn [bind] | eexists; reflexivity].
  destruct (txt_field d "source") as [t4 | e] eqn:H4;
    [cbn [bind] | eexists; reflexivity].
  destruct (txt_field d "line") as [t5 | e] eqn:H5;
    [cbn [bind] | eexists; reflexivity].
  exfalso. apply Hfield in H1, H2, H3, H4, H5. cbn in Hkey.
  destruct Hkey as [<- | [<- | [<- | [<- | [<- | []]]]]]; contradiction.
Qed.

(** ** The overwrite question *)

Lemma confirm_undecided (junk inputs : list str) (out : list str) :
  forallb undecided junk = true ->
  confirm_overwrite (junk ++ inputs) out
  = confirm_overwrite inputs (out ++ repeat reminder (length junk)).
Proof.
  revert out. induction junk as [|j junk IH]; intros out H.
  - cbn. rewrite app_nil_r. reflexivity.
  - cbn [forallb] in H. apply andb_true_iff in H as [Hj H].
    cbn [app confirm_overwrite length repeat]. unfold undecided in Hj.
    destruct (list_eq_dec char_dec (lower (strip j)) (py "y"));
      [discriminate|].
    destruct (list_eq_dec char_dec (lower (strip j)) (py "n"));
      [discriminate|].
    rewrite IH by exact H. rewrite <- app_assoc. reflexivity.
Qed.

(** ** The banner *)

Lemma split_line (sep : N) (line rest : text) :
  ~ In sep line ->
  split sep (line ++ sep :: rest) = line :: split sep rest.
Proof.
  induction line as [|c line IH]; intros Hno; cbn [app split].
  - rewrite N.eqb_refl. reflexivity.
  - destruct (N.eqb_spec c sep) as [->|_].
    + exfalso. apply Hno. left. reflexivity.
    + rewrite IH; [reflexivity|]. intros H. apply Hno. right. exact H.
Qed.

Lemma split_last (sep : N) (line : text) :
  ~ In sep line -> split sep line = [line].
Proof.
  induction line as [|c line IH]; intros Hno; cbn [split]; [reflexivity|].
  destruct (N.eqb_spec c sep) as [->|_].
  - exfalso. apply Hno. left. reflexivity.
  - rewrite IH; [reflexivity|]. intros H. apply Hno. right. exact H.
Qed.

(** Splitting what was joined gives the lines back, when there is a
    line at least and no line holds the separator. *)
Lemma split_join (sep : N) (ls : list text) :
  ls <> [] -> Forall (fun line => ~ In sep line) ls ->
  split sep (join [sep] ls) = ls.
Proof.
  induction ls as [|line ls IH]; intros Hne Hall; [congruence|].
  inversion Hall as [|? ? Hline Hrest]; subst.
  destruct ls as [|line2 ls].
  - cbn [join]. apply split_last. exact Hline.
  - change (join [sep] (line :: line2 :: ls))
      with (line ++ sep :: join [sep] (line2 :: ls)).
    rewrite split_line by exact Hline.
    rewrite IH; [reflexivity | discriminate | exact Hrest].
Qed.

Lemma center_shape (width : nat) (s : text) :
  exists l r,
    center width s = repeat blank l ++ s ++ repeat blank r
    /\ length (center width s) = Nat.max width (length s)
    /\ l + r = width - length s
    /\ l <= r + 1 /\ r <= l + 1.
Proof.
  unfold center. destruct (Nat.leb_spec width (length s)) as [Hle | Hlt].
  - exists 0, 0. cbn [repeat app]. rewrite app_nil_r.
    repeat split; lia.
  - set (marg := width - length s).
    pose proof (Nat.div2_odd marg) as Hm.
    set (extra := if Nat.odd marg && Nat.odd width then 1 else 0).
    assert (He : extra <= Nat.b2n (Nat.odd marg)).
    { unfold extra. destruct (Nat.odd marg), (Nat.odd width); cbn; lia. }
    assert (Hb : Nat.b2n (Nat.odd marg) <= 1)
      by (destruct (Nat.odd marg); cbn; lia).
    exists (Nat.div2 marg + extra), (marg - (Nat.div2 marg + extra)).
    split; [reflexivity|].
    rewrite !length_app, !repeat_length.
    repeat split; lia.
Qed.

(** * The properties of the specification *)

(** C1: decoding is all-or-nothing per encoding attempt, so that a file
    gives exactly the records of its first decode that goes through.
    The program does not do this on [late_bad_byte]: the record of
    line 1, appended by the UTF-8 attempt before its decode error, is
    still in the list when the ISO-8859-1 attempt appends it again.
    The first complete decode has one record, the result has two. *)
Theorem abandoned_attempt_is_kept :
  let r := match_record (py "https://example.com/login") (py "alice")
             (py "secret") (py "dump.txt") 1 in
  first_decode late_bad_byte
    = Some (lines (open_as late_bad_byte iso_8859_1))
  /\ records_of_lines late_bad_byte [py "example"]
       (lines (open_as late_bad_byte iso_8859_1)) = [r]
  /\ search_keywords_in_file late_bad_byte [py "example"] = Return [r; r].
Proof. vm_compute. repeat split; reflexivity. Qed.

(** C2, as stated, at the very text of the claim: [port] is not a run
    of digits, and nothing is extracted. *)
Lemma literal_port_no_match :
  extract (py "http://host:port/path:user:pass") = None.
Proof. vm_compute. reflexivity. Qed.

(** C2, amended: on a line that contains [http://host:port/path:user:pass]
    where [port] is a run of digits ([:port] and [/path] may each be
    there or not), [user] and [pass] are tokens without colon, slash or
    white space, the text ends at white space or at the end of the line
    and no match starts before it, the extraction is exactly the URL
    with its port and path, the user and the password. *)
Theorem extract_url_port_path (pre H P : str) (PATH : option str)
    (U PW post : str) :
  H <> [] -> forallb host_char H = true ->
  forallb is_digit P = true ->
  forallb path_char (path_text PATH) = true ->
  U <> [] -> forallb user_char U = true ->
  PW <> [] -> forallb user_char PW = true ->
  ends_token post = true ->
  no_match_before (length pre)
    (pre ++ py "http" ++ py "://" ++ H ++ port_text P ++ path_text PATH
       ++ colon :: U ++ colon :: PW ++ post) = true ->
  extract (pre ++ py "http" ++ py "://" ++ H ++ port_text P ++ path_text PATH
             ++ colon :: U ++ colon :: PW ++ post)
  = Some (py "http" ++ py "://" ++ H ++ port_text P ++ path_text PATH,
          U, PW).
Proof.
  intros HH1 HH2 HP HPATH HU1 HU2 HPW1 HPW2 Hpost Hpre.
  destruct PATH as [PATH|]; cbn [path_text app] in *.
  - cbn [forallb] in HPATH. apply andb_true_iff in HPATH as [_ HPATH].
    rewrite (extract_at pre _ _ Hpre
               (match_url_path H P PATH U PW post
                  HH1 HH2 HP HPATH HU1 HU2 HPW1 HPW2 Hpost)).
    reflexivity.
  - rewrite (extract_at pre _ _ Hpre
               (match_url_tokens H P U PW post
                  HH1 HH2 HP HU1 HU2 HPW1 HPW2 Hpost)).
    cbn. rewrite app_nil_r. reflexivity.
Qed.

Lemma extract_url_port_path_witness :
  extract (py "login http://host:8080/path:user:pass" ++ [newline])
  = Some (py "http://host:8080/path", py "user", py "pass").
Proof.
  apply (extract_url_port_path (py "login ") (py "host") (py "8080")
           (Some (py "path")) (py "user") (py "pass") [newline]);
    try discriminate; reflexivity.
Defined.

(** C3, as stated, on a credential whose URL has a path: the path is
    greedy and takes the username with it, the password is cut at its
    colon. *)
Lemma colon_password_after_path :
  extract (py "https://a.com/x:bob:p:ss")
  = Some (py "https://a.com/x:bob", py "p", py "ss").
Proof. vm_compute. reflexivity. Qed.

(** C3, amended: on a line that contains a credential whose URL has no
    path (and whose username is not a number that reads as the port),
    with no match starting before it, the password may hold colons and
    is extracted whole, with the username.  On every line, the
    username that is extracted holds no colon, and the password that is
    extracted runs up to the next slash or white space or to the end
    of the line. *)
Theorem extract_colon_password (pre sch H P U PW post : str) :
  sch = py "http" \/ sch = py "https" ->
  H <> [] -> forallb host_char H = true ->
  forallb is_digit P = true ->
  (P = [] -> forallb is_digit U = false) ->
  U <> [] -> forallb user_char U = true ->
  PW <> [] -> forallb pass_char PW = true ->
  stops pass_char post = true ->
  no_match_before (length pre)
    (pre ++ sch ++ py "://" ++ H ++ port_text P
       ++ colon :: U ++ colon :: PW ++ post) = true ->
  extract (pre ++ sch ++ py "://" ++ H ++ port_text P
             ++ colon :: U ++ colon :: PW ++ post)
  = Some (sch ++ py "://" ++ H ++ port_text P, U, PW)
  /\ forall line url username password,
       extract line = Some (url, username, password) ->
       ~ In colon username
       /\ exists before after,
            line = before ++ url ++ colon :: username
                     ++ colon :: password ++ after
            /\ forallb pass_char password = true
            /\ stops pass_char after = true.
Proof.
  intros Hsch HH1 HH2 HP Hnum HU1 HU2 HPW1 HPW2 Hpost Hpre. split.
  - rewrite (extract_at pre _ _ Hpre
               (match_url_no_path sch H P U PW post
                  Hsch HH1 HH2 HP Hnum HU1 HU2 HPW1 HPW2 Hpost)).
    reflexivity.
  - intros line url username password Hline.
    apply extract_sound in Hline
      as (before & after & -> & _ & _ & Hu & _ & Hp & Hafter).
    split.
    + intros Hin. rewrite forallb_forall in Hu. specialize (Hu _ Hin).
      discriminate Hu.
    + exists before, after. auto.
Qed.

Lemma extract_colon_password_witness :
  extract (py "https://a.com:bob:p:ss")
  = Some (py "https://a.com", py "bob", py "p:ss").
Proof.
  apply (extract_colon_password [] (py "https") (py "a.com") []
           (py "bob") (py "p:ss") []);
    try discriminate; try reflexivity.
  right. reflexivity.
Defined.

(** C4: when the reading of one file fails, the scan of the files gives
    what the files before it give, then one error record for that file,
    then what the files after it give, each as if scanned alone: the
    scan goes on and the other files are not touched. *)
Theorem failed_file_is_isolated (before after : list file) (f : file)
    (keywords : list str) (error : str) :
  read_failure f = Some error ->
  scan_files (before ++ f :: after) keywords []
  = Return (flat_map (contribution keywords) before
              ++ [error_record error (file_name f)]
              ++ flat_map (contribution keywords) after).
Proof.
  intros Hfail. rewrite scan_files_flat. cbn [app]. f_equal.
  rewrite flat_map_app. cbn [flat_map]. f_equal. f_equal.
  unfold contribution, search_keywords_in_file.
  rewrite (read_failure_error f keywords encodings_to_try [] error Hfail).
  reflexivity.
Qed.

Lemma failed_file_is_isolated_witness :
  scan_files [plain_file (py "a.txt"); unreadable_file (py "b.txt");
              plain_file (py "c.txt")] [py "example"] []
  = Return
      [match_record (py "https://example.com/a") (py "ann") (py "pw1")
         (py "a.txt") 1;
       error_record (py "Error reading file with encoding utf-8")
         (py "b.txt");
       match_record (py "https://example.com/a") (py "ann") (py "pw1")
         (py "c.txt") 1].
Proof.
  apply (failed_file_is_isolated [plain_file (py "a.txt")]
           [plain_file (py "c.txt")] (unreadable_file (py "b.txt"))
           [py "example"]
           (py "Error reading file with encoding utf-8")).
  reflexivity.
Defined.

(** C5: what a file gives is a list of match records or one error
    record, never both kinds. *)
Theorem file_gives_matches_or_one_error (f : file) (keywords : list str) :
  exists rs : list record,
    search_keywords_in_file f keywords = Return (map to_dict rs)
    /\ (forallb is_match rs = true
        \/ exists error, rs = [ErrorRecord error (file_name f)]).
Proof.
  destruct (search_shape f keywords) as (rs & Hrs & [Hm | He]).
  - exists rs. split; [exact Hrs | left].
    apply forallb_forall. intros r Hr.
    rewrite Forall_forall in Hm. apply (Hm r Hr).
  - exists rs. split; [exact Hrs | right; exact He].
Qed.

(** C6: on a line from which a triple is extracted, a match record is
    appended if and only if some keyword in lower case occurs in the
    URL in lower case; otherwise the list is left as it is. *)
Theorem keyword_filter (source : str) (keywords : list str) (n : Z)
    (line : str) (rs : list dict) (url username password : str) :
  extract line = Some (url, username, password) ->
  (scan_line source keywords n line rs
     = rs ++ [match_record url username password source n]
   <-> keyword_occurs keywords url)
  /\ (scan_line source keywords n line rs = rs
      <-> ~ keyword_occurs keywords url).
Proof.
  intros Hline. unfold scan_line. rewrite Hline.
  assert (Hgrow : rs ++ [match_record url username password source n]
                  <> rs).
  { intros H. apply (f_equal (@length dict)) in H.
    rewrite length_app in H. cbn in H. lia. }
  destruct (keyword_hit keywords url) eqn:Hhit.
  - apply keyword_hit_spec in Hhit. split; split; intros H;
      try reflexivity; try exact Hhit; try contradiction.
  - assert (Hno : ~ keyword_occurs keywords url).
    { intros H. apply keyword_hit_spec in H. congruence. }
    split; split; intros H; try reflexivity; try exact Hno;
      try contradiction.
    symmetry in H. contradiction.
Qed.

Lemma keyword_filter_witness :
  scan_line (py "a.txt") [py "EXAMPLE"] 7
    (py "https://example.com/login:alice:secret") []
  = [match_record (py "https://example.com/login") (py "alice")
       (py "secret") (py "a.txt") 7].
Proof.
  apply (keyword_filter (py "a.txt") [py "EXAMPLE"] 7
           (py "https://example.com/login:alice:secret") []
           (py "https://example.com/login") (py "alice") (py "secret")).
  - reflexivity.
  - exists (py "EXAMPLE"), (py "https://"), (py ".com/login").
    split; [left; reflexivity | reflexivity].
Defined.

(** C7, as stated, on the scan of three files, the last of which has
    a name with a byte that is not UTF-8: the scan result has two match
    records and an error record, and the file name cannot be written to
    the output.  The csv output stops after the row of the first match
    record and the txt output after its line, with the error of the
    codec printed; the second match record is in neither. *)
Lemma escaped_source_stops_csv_and_txt :
  scan_files escaped_files [py "example"] []
  = Return (map to_dict escaped_scan)
  /\ length (filter is_match escaped_scan) = 2
  /\ save_results None None (map to_dict escaped_scan) (py "csv")
     = Saved
         (Some (CsvRows
                  [csv_header;
                   [py "https://example.com/a"; py "ann"; py "pw1";
                    py "a.txt"; py "1"]]))
         [other_error_message
            (py "'utf-8' codec can't encode character '\udcff' in position 34: surrogates not allowed")]
  /\ save_results None None (map to_dict escaped_scan) (py "txt")
     = Saved
         (Some (TxtText
                  (py "URL: https://example.com/a, Username: ann, Password: pw1, Source: a.txt, Line: 1"
                     ++ [newline])))
         [other_error_message
            (py "'utf-8' codec can't encode character '\udcff' in position 70: surrogates not allowed")].
Proof. repeat split; reflexivity. Qed.

(** C7, amended: when every match record of the scan result can be
    written (its strings hold no surrogate and its line number is
    within the limit on the digits of an integer), and the output file
    is opened and written without an error of the system, the csv
    output is the header row and then one row for each match record, in
    the order of the scan result; the txt output is one line for each
    match record, in that order; the error records are in neither, and
    nothing is printed. *)
Theorem csv_txt_only_match_records (rs : list record) :
  forallb writable (filter is_match rs) = true ->
  save_results None None (map to_dict rs) (py "csv")
  = Saved (Some (CsvRows (csv_header :: map record_row (filter is_match rs))))
          []
  /\ save_results None None (map to_dict rs) (py "txt")
     = Saved (Some (TxtText (concat (map record_line (filter is_match rs)))))
             [].
Proof.
  intros H. split.
  - rewrite save_csv, csv_rows_records by exact H. reflexivity.
  - rewrite save_txt, txt_lines_records by exact H. reflexivity.
Qed.

Lemma csv_txt_only_match_records_witness :
  save_results None None
    [match_record (py "http://a.b") (py "u") (py "p") (py "f.txt") 1;
     error_record (py "Error reading file with encoding utf-8") escaped_name;
     match_record (py "http://c.d") (py "v") (py "q") (py "g.txt") 2]
    (py "csv")
  = Saved
      (Some (CsvRows
               [csv_header;
                [py "http://a.b"; py "u"; py "p"; py "f.txt"; py "1"];
                [py "http://c.d"; py "v"; py "q"; py "g.txt"; py "2"]]))
      []
  /\ save_results None None
       [match_record (py "http://a.b") (py "u") (py "p") (py "f.txt") 1;
        error_record (py "Error reading file with encoding utf-8")
          escaped_name;
        match_record (py "http://c.d") (py "v") (py "q") (py "g.txt") 2]
       (py "txt")
     = Saved
         (Some (TxtText
                  (py "URL: http://a.b, Username: u, Password: p, Source: f.txt, Line: 1"
                     ++ [newline]
                     ++ py "URL: http://c.d, Username: v, Password: q, Source: g.txt, Line: 2"
                     ++ [newline])))
         [].
Proof.
  apply (csv_txt_only_match_records
           [MatchRecord (py "http://a.b") (py "u") (py "p") (py "f.txt") 1;
            ErrorRecord (py "Error reading file with encoding utf-8")
              escaped_name;
            MatchRecord (py "http://c.d") (py "v") (py "q") (py "g.txt") 2]).
  reflexivity.
Defined.



(** C9, as stated, on the one match record of a file whose name has a
    byte that is not UTF-8: [json.dump] is stopped by the codec at the
    file name, the output file holds the first 120 characters of the
    document, up to the colon after the key [source], and
    [json.loads] does not read it. *)
Lemma escaped_source_stops_json :
  save_results None None
    [match_record (py "https://example.com/a") (py "ann") (py "pw1")
       escaped_name 1]
    (py "json")
  = Saved
      (Some (JsonText
               (firstn 120
                  (json_dump
                     [match_record (py "https://example.com/a") (py "ann")
                        (py "pw1") escaped_name 1]))))
      [other_error_message
         (py "'utf-8' codec can't encode character '\udcff' in position 5: surrogates not allowed")]
  /\ json_loads
       (firstn 120
          (json_dump
             [match_record (py "https://example.com/a") (py "ann")
                (py "pw1") escaped_name 1]))
     = None.
Proof. split; reflexivity. Qed.

(** C9, amended: when every record of the scan result can be written
    (its strings hold no surrogate and its line number is within the
    limit on the digits of an integer), and the output file is opened
    and written without an error of the system, the json text written
    for the scan result is read back as the same records, as many, each
    with the same fields. *)
Theorem json_round_trip (rs : list record) :
  forallb writable rs = true ->
  exists text,
    save_results None None (map to_dict rs) (py "json")
    = Saved (Some (JsonText text)) []
    /\ json_loads text = Some (map to_dict rs)
    /\ length (map to_dict rs) = length rs.
Proof.
  intros H. exists (json_dump (map to_dict rs)). split; [|split].
  - rewrite save_json, (writes_dump _ (writable_dicts rs H) []).
    reflexivity.
  - apply json_loads_dump. apply Forall_forall. intros d Hd.
    apply in_map_iff in Hd as (r & <- & _). apply to_dict_keys.
  - apply length_map.
Qed.

Lemma json_round_trip_witness :
  exists text,
    save_results None None
      [match_record (py "https://example.com/a") (py "ann") (py "pw1")
         (py "a.txt") 1;
       match_record (py "http://other.org:8080/x") (py "bob")
         [quote; backslash] (py "a.txt") 3]
      (py "json")
    = Saved (Some (JsonText text)) []
    /\ json_loads text
       = Some
           [match_record (py "https://example.com/a") (py "ann") (py "pw1")
              (py "a.txt") 1;
            match_record (py "http://other.org:8080/x") (py "bob")
              [quote; backslash] (py "a.txt") 3].
Proof.
  destruct (json_round_trip
              [MatchRecord (py "https://example.com/a") (py "ann")
                 (py "pw1") (py "a.txt") 1;
               MatchRecord (py "http://other.org:8080/x") (py "bob")
                 [quote; backslash] (py "a.txt") 3] eq_refl)
    as (text & Hsave & Hload & _).
  exists text. split; [exact Hsave | exact Hload].
Defined.

(** C10: [search_keywords_in_file] returns, whatever the file and the
    keywords; what it returns is a list of dicts with the keys url,
    username, password, source and line, or one dict with the keys
    error and source. *)
Theorem search_keywords_in_file_returns (f : file) (keywords : list str) :
  exists results,
    search_keywords_in_file f keywords = Return results
    /\ (Forall (fun d => keys d = fieldnames) results
        \/ exists d, results = [d]
                     /\ keys d = ["error"; "source"]%string).
Proof.
  destruct (search_shape f keywords) as (rs & Hrs & [Hm | [error ->]]).
  - exists (map to_dict rs). split; [exact Hrs | left].
    apply Forall_forall. intros d Hd.
    apply in_map_iff in Hd as (r & <- & Hr).
    rewrite Forall_forall in Hm. destruct (Hm r Hr) as [Hmatch _].
    destruct r; [reflexivity | discriminate Hmatch].
  - eexists. split; [exact Hrs | right].
    eexists. split; reflexivity.
Qed.

(** * More properties of the program *)

(** X1: whatever is extracted from a line lies in the line as
    [url:username:password]; the URL has the shape of the pattern, the
    username is not empty and has no colon, slash or white space, the
    password is not empty, has no slash or white space and ends where
    the line ends or a slash or white space follows; and no match of
    the pattern starts further left. *)
Theorem extraction_is_leftmost_credential
    (line url username password : str) :
  extract line = Some (url, username, password) ->
  exists pre post,
    line = pre ++ url ++ colon :: username ++ colon :: password ++ post
    /\ url_text url
    /\ username <> [] /\ forallb user_char username = true
    /\ password <> [] /\ forallb pass_char password = true
    /\ stops pass_char post = true
    /\ no_match_before (length pre) line = true.
Proof. apply extract_credential. Qed.

Lemma extraction_is_leftmost_credential_witness :
  exists pre post,
    py "x HTTPS://a.com:8080/p:bob:p:ss/tail"
    = pre ++ py "HTTPS://a.com:8080/p:bob" ++ colon :: py "p"
        ++ colon :: py "ss" ++ post
    /\ url_text (py "HTTPS://a.com:8080/p:bob")
    /\ stops pass_char post = true.
Proof.
  destruct (extraction_is_leftmost_credential
              (py "x HTTPS://a.com:8080/p:bob:p:ss/tail")
              (py "HTTPS://a.com:8080/p:bob") (py "p") (py "ss") eq_refl)
    as (pre & post & H1 & H2 & _ & _ & _ & _ & H3 & _).
  exists pre, post. auto.
Defined.

(** X2: the engine has no false negatives and no false positives:
    something is extracted from a line exactly when some part of the
    line is a credential of the grammar. *)
Theorem extraction_iff_credential (line : str) :
  extract line <> None
  <-> exists pre m post, line = pre ++ m ++ post /\ credential_text m.
Proof.
  split.
  - destruct (extract line) as [[[url u] pw]|] eqn:H; [|congruence].
    intros _. apply extract_credential in H
      as (pre & post & -> & Hurl & Hu1 & Hu2 & Hp1 & Hp2 & _).
    exists pre, (url ++ colon :: u ++ colon :: pw), post.
    split.
    + f_equal. rewrite <- app_assoc. f_equal. cbn [app]. f_equal.
      rewrite <- app_assoc. reflexivity.
    + exists url, u, pw. auto 10.
  - intros (pre & m & post & -> & Hm). unfold extract.
    pose proof (search_app CREDENTIAL_PATTERN pre (m ++ post)
                  (credential_matches m post Hm)) as H.
    destruct (search CREDENTIAL_PATTERN (pre ++ m ++ post));
      [discriminate | congruence].
Qed.

(** X3: nothing is extracted from a line that does not hold the text
    [://], nor from a line with fewer than three colons. *)
Theorem no_separator_no_match (line : str) :
  contains line (py "://") = false
  \/ count_occ char_dec line colon < 3 ->
  extract line = None.
Proof.
  intros H. destruct (extract line) as [[[url u] pw]|] eqn:He;
    [exfalso | reflexivity].
  apply extract_credential in He as (pre & post & -> & Hurl & _).
  apply url_text_separator in Hurl as (a & b & ->).
  destruct H as [H | H].
  - assert (Hc : contains
                   (pre ++ (a ++ py "://" ++ b)
                      ++ colon :: u ++ colon :: pw ++ post)
                   (py "://") = true).
    { apply contains_spec.
      exists (pre ++ a), (b ++ colon :: u ++ colon :: pw ++ post).
      rewrite <- !app_assoc. reflexivity. }
    congruence.
  - rewrite !count_occ_app in H. cbn in H.
    rewrite !count_occ_app in H. cbn in H. lia.
Qed.

Lemma no_separator_no_match_witness :
  extract (py "http//a.com:bob:secret") = None
  /\ extract (py "http://a.com:bob") = None.
Proof.
  split.
  - apply no_separator_no_match. left. reflexivity.
  - apply no_separator_no_match. right. cbn. lia.
Defined.

(** X4: a file that decodes at the first attempt gives one record for
    each line from which a triple is extracted with a keyword in its
    URL, and no other record; the record carries the number of the
    line, counted from 1, and the records come in the order of the
    lines. *)
Theorem records_follow_the_lines (f : file) (keywords : list str) :
  ending (open_as f utf_8) = None ->
  exists rs,
    search_keywords_in_file f keywords = Return rs
    /\ (forall d,
          In d rs
          <-> exists i line url u pw,
                nth_error (lines (open_as f utf_8)) i = Some line
                /\ extract line = Some (url, u, pw)
                /\ keyword_occurs keywords url
                /\ d = match_record url u pw (file_name f)
                         (1 + Z.of_nat i))
    /\ length rs
       = length (filter (line_hits keywords) (lines (open_as f utf_8)))
    /\ StronglySorted Z.lt (map line_of rs).
Proof.
  intros Hend.
  exists (scan_lines (file_name f) keywords 1 (lines (open_as f utf_8)) []).
  split; [|split; [|split]].
  - unfold search_keywords_in_file, encodings_to_try.
    cbn [try_encodings]. unfold read_with. rewrite Hend. reflexivity.
  - intros d. apply scan_lines_in.
  - apply scan_lines_count.
  - apply scan_lines_sorted.
Qed.

Lemma records_follow_the_lines_witness :
  exists rs,
    search_keywords_in_file (plain_file (py "a.txt")) [py "o"] = Return rs
    /\ length rs = 2
    /\ map line_of rs = [1; 3]%Z.
Proof.
  destruct (records_follow_the_lines (plain_file (py "a.txt")) [py "o"]
              eq_refl) as (rs & Hrs & _ & Hlen & _).
  exists rs. split; [exact Hrs|]. split; [exact Hlen|].
  vm_compute in Hrs. injection Hrs as <-. reflexivity.
Defined.

(** X5: what [search_keywords_in_file] returns, in full: when some
    encoding decodes the whole file after decode errors only, the
    records of the lines that the attempts given up had handed over,
    followed by the records of that decode; otherwise one error record
    with the cause and the name of the file. *)
Theorem search_result_in_full (f : file) (keywords : list str) :
  (exists ls,
     first_decode f = Some ls /\ read_failure f = None
     /\ search_keywords_in_file f keywords
        = Return (abandoned_records f keywords encodings_to_try
                    ++ records_of_lines f keywords ls))
  \/ (exists error,
        first_decode f = None /\ read_failure f = Some error
        /\ search_keywords_in_file f keywords
           = Return [error_record error (file_name f)]).
Proof.
  unfold first_decode, read_failure, search_keywords_in_file.
  destruct (first_decode_from f encodings_to_try) as [ls|] eqn:Hd.
  - left. exists ls. split; [reflexivity|]. split.
    + apply (decode_not_failure f _ ls Hd).
    + apply (try_encodings_keeps f keywords _ [] ls Hd).
  - right. destruct (no_decode_fails f _ Hd) as [error He].
    exists error. split; [reflexivity|]. split; [exact He|].
    apply read_failure_error. exact He.
Qed.

(** X6: the UTF-16 attempt is made after two decode errors only: when
    the UTF-8 or the ISO-8859-1 attempt ends otherwise, what the file
    is under UTF-16 does not matter. *)
Theorem utf_16_after_two_decode_errors (f f' : file)
    (keywords : list str) :
  file_name f = file_name f' ->
  open_as f utf_8 = open_as f' utf_8 ->
  open_as f iso_8859_1 = open_as f' iso_8859_1 ->
  is_decode_error (ending (open_as f utf_8))
  && is_decode_error (ending (open_as f iso_8859_1)) = false ->
  search_keywords_in_file f keywords = search_keywords_in_file f' keywords.
Proof.
  intros Hname H8 H1 Hno. apply try_encodings_same; assumption.
Qed.

Lemma utf_16_after_two_decode_errors_witness :
  search_keywords_in_file late_bad_byte [py "example"]
  = search_keywords_in_file
      (File (py "dump.txt")
         (fun enc =>
            match enc with
            | utf_16 => Reading [] (Some (Exn OSError (py "gone")))
            | _ => open_as late_bad_byte enc
            end))
      [py "example"].
Proof.
  apply utf_16_after_two_decode_errors; reflexivity.
Defined.

(** X7: without keywords no line gives a record: the result is the
    empty list, or the error record of a file that cannot be read. *)
Theorem no_keywords_no_records (f : file) :
  search_keywords_in_file f [] = Return []
  \/ exists error,
       search_keywords_in_file f []
       = Return [error_record error (file_name f)].
Proof.
  unfold search_keywords_in_file. generalize encodings_to_try.
  intros encs. induction encs as [|enc encs IH]; cbn [try_encodings].
  - right. eexists. reflexivity.
  - unfold read_with. rewrite scan_lines_no_keywords.
    destruct (ending (open_as f enc)) as [e|]; [|left; reflexivity].
    destruct (caught_by ExceptUnicodeDecodeError e); [exact IH|].
    right. eexists. reflexivity.
Qed.

(** X8: the empty keyword is in every URL: with it among the keywords,
    every line from which a triple is extracted gives its record. *)
Theorem empty_keyword_keeps_all (source : str) (keywords : list str)
    (n : Z) (line : str) (rs : list dict) (url u pw : str) :
  In [] keywords ->
  extract line = Some (url, u, pw) ->
  scan_line source keywords n line rs
  = rs ++ [match_record url u pw source n].
Proof.
  intros Hin He. unfold scan_line. rewrite He.
  assert (Hk : keyword_hit keywords url = true).
  { apply keyword_hit_spec. exists [], (lower url), [].
    split; [exact Hin|]. cbn. rewrite app_nil_r. reflexivity. }
  rewrite Hk. reflexivity.
Qed.

Lemma empty_keyword_keeps_all_witness :
  scan_line (py "a.txt") [py "zzz"; []] 4 (py "http://h.org:u:p") []
  = [match_record (py "http://h.org") (py "u") (py "p") (py "a.txt") 4].
Proof.
  apply (empty_keyword_keeps_all (py "a.txt") [py "zzz"; []] 4
           (py "http://h.org:u:p") []).
  - right. left. reflexivity.
  - reflexivity.
Defined.

(** X9: every dict that [search_keywords_in_file] returns is the error
    record of the file, or a match record of the file whose line number
    is at least 1, whose URL has the shape of the pattern and holds a
    keyword (without case), and whose username and password are not
    empty. *)
Theorem returned_records_are_well_formed (f : file) (keywords : list str)
    (rs : list dict) (d : dict) :
  search_keywords_in_file f keywords = Return rs ->
  In d rs ->
  (exists error, d = error_record error (file_name f))
  \/ (exists url u pw n,
        d = match_record url u pw (file_name f) n
        /\ (1 <= n)%Z /\ url_text url /\ u <> [] /\ pw <> []
        /\ keyword_occurs keywords url).
Proof.
  intros Hrs Hd. unfold search_keywords_in_file in Hrs.
  apply (try_encodings_good f keywords _ [] rs) in Hrs; [|constructor].
  destruct Hrs as [Hg | [error ->]].
  - right. rewrite Forall_forall in Hg. exact (Hg d Hd).
  - left. destruct Hd as [<- | []]. exists error. reflexivity.
Qed.

Lemma returned_records_are_well_formed_witness :
  exists url u pw n,
    match_record (py "https://example.com/login") (py "alice")
      (py "secret") (py "dump.txt") 1
    = match_record url u pw (py "dump.txt") n
    /\ (1 <= n)%Z /\ url_text url.
Proof.
  destruct (returned_records_are_well_formed late_bad_byte [py "example"]
              _ (match_record (py "https://example.com/login") (py "alice")
                   (py "secret") (py "dump.txt") 1)
              eq_refl (or_introl eq_refl))
    as [[error H] | (url & u & pw & n & H1 & H2 & H3 & _)].
  - discriminate H.
  - exists url, u, pw, n. auto.
Defined.

(** X10: the scan of a list of files is the scan of its first part
    followed by the scan of the rest: no file stops the loop, and the
    records come file after file in the order of the list. *)
Theorem scan_of_two_parts (a b : list file) (keywords : list str) :
  exists ra rb,
    scan_files a keywords [] = Return ra
    /\ scan_files b keywords [] = Return rb
    /\ scan_files (a ++ b) keywords [] = Return (ra ++ rb).
Proof.
  exists (flat_map (contribution keywords) a),
         (flat_map (contribution keywords) b).
  rewrite !scan_files_flat, flat_map_app. auto.
Qed.

(** X11: every record of a scan names one of the scanned files as its
    source. *)
Theorem scan_sources_are_scanned_files (txt_files : list file)
    (keywords : list str) (rs : list dict) (d : dict) :
  scan_files txt_files keywords [] = Return rs ->
  In d rs ->
  exists f, In f txt_files /\ get "source" d = Some (VStr (file_name f)).
Proof.
  rewrite scan_files_flat. intros [= <-] Hd. cbn [app] in Hd.
  apply in_flat_map in Hd as (f & Hf & Hd). exists f. split; [exact Hf|].
  unfold contribution in Hd.
  destruct (search_shape f keywords) as (ms & Hms & Hshape).
  rewrite Hms in Hd. apply in_map_iff in Hd as (r & <- & Hr).
  destruct Hshape as [Hm | [error ->]].
  - rewrite Forall_forall in Hm. destruct (Hm r Hr) as [_ Hsrc].
    destruct r; cbn in *; rewrite Hsrc; reflexivity.
  - destruct Hr as [<- | []]. reflexivity.
Qed.

Lemma scan_sources_are_scanned_files_witness :
  exists f,
    In f [plain_file (py "a.txt"); unreadable_file (py "b.txt")]
    /\ get "source"
         (error_record (py "Error reading file with encoding utf-8")
            (py "b.txt"))
       = Some (VStr (file_name f)).
Proof.
  apply (scan_sources_are_scanned_files
           [plain_file (py "a.txt"); unreadable_file (py "b.txt")]
           [py "example"]
           [match_record (py "https://example.com/a") (py "ann") (py "pw1")
              (py "a.txt") 1;
            error_record (py "Error reading file with encoding utf-8")
              (py "b.txt")]).
  - reflexivity.
  - right. left. reflexivity.
Defined.




(** X14: the overwrite question is asked again after every answer that
    is neither [y] nor [n] (once stripped, in any case), with a
    reminder each time; the first answer that is one of them decides,
    and the answers after it are not read.  When the answers run out
    before that, [input] raises [EOFError]. *)
Theorem overwrite_question_loops (junk : list str) (answer : str)
    (unread : list str) (out : list str) :
  forallb undecided junk = true ->
  undecided answer = false ->
  confirm_overwrite (junk ++ answer :: unread) out
  = (if says_yes answer
     then (Valid, out ++ repeat reminder (length junk))
     else (Cancelled,
           (out ++ repeat reminder (length junk))
             ++ [py "Operation cancelled by the user."]))
  /\ fst (confirm_overwrite junk out)
     = Invalid (Exn EOFError (py "EOF when reading a line")).
Proof.
  intros Hjunk Hans. split.
  - rewrite confirm_undecided by exact Hjunk. cbn [confirm_overwrite].
    unfold undecided in Hans. unfold says_yes.
    destruct (list_eq_dec char_dec (lower (strip answer)) (py "y"));
      [reflexivity|].
    destruct (list_eq_dec char_dec (lower (strip answer)) (py "n"));
      [reflexivity | discriminate].
  - rewrite <- (app_nil_r junk) at 1.
    rewrite confirm_undecided by exact Hjunk. reflexivity.
Qed.

Lemma overwrite_question_loops_witness :
  confirm_overwrite [py "maybe"; []; py "  Y "; py "n"] []
  = (Valid, [reminder; reminder]).
Proof.
  apply (overwrite_question_loops [py "maybe"; []] (py "  Y ") [py "n"] []);
    reflexivity.
Defined.

(** X15: the csv writer stops at the first dict that has a key outside
    the five field names (and no [error] key): the file holds the
    header and rows of the first match records before that dict, all of
    them when they can be written, and nothing of what follows; an
    error is printed. *)
Theorem csv_stops_at_foreign_key (good : list record) (bad : dict)
    (rest : list dict) (key : string) :
  has_key "error" bad = false ->
  In key (keys bad) -> ~ In key fieldnames ->
  (exists k,
     output_file
       (save_results None None (map to_dict good ++ bad :: rest) (py "csv"))
     = Some (CsvRows
               (csv_header
                  :: firstn k (map record_row (filter is_match good)))))
  /\ (forallb writable (filter is_match good) = true ->
      output_file
        (save_results None None (map to_dict good ++ bad :: rest)
           (py "csv"))
      = Some (CsvRows (csv_header :: map record_row (filter is_match good))))
  /\ printed
       (save_results None None (map to_dict good ++ bad :: rest) (py "csv"))
     <> [].
Proof.
  intros Herr Hin Hout. rewrite save_csv, csv_rows_app.
  destruct (csv_row_foreign_key bad key Hin Hout) as [text Hbad].
  split; [|split].
  - destruct (csv_rows_prefix good [csv_header]) as (k & raised & ->).
    exists k. destruct raised as [e|]; [reflexivity|].
    cbn [csv_rows]. rewrite Herr, Hbad. reflexivity.
  - intros Hgood. rewrite csv_rows_records by exact Hgood.
    cbn [csv_rows]. rewrite Herr, Hbad. reflexivity.
  - destruct (csv_rows (map to_dict good) [csv_header]) as [rows [e|]].
    + apply save_handlers_prints.
    + cbn [csv_rows]. rewrite Herr, Hbad. apply save_handlers_prints.
Qed.

Lemma csv_stops_at_foreign_key_witness :
  output_file
    (save_results None None
       [match_record (py "http://a.b") (py "u") (py "p") (py "f.txt") 1;
        [("url"%string, VStr (py "http://c.d")); ("note"%string, VStr [])];
        match_record (py "http://e.f") (py "v") (py "q") (py "f.txt") 2]
       (py "csv"))
  = Some (CsvRows [csv_header;
                   [py "http://a.b"; py "u"; py "p"; py "f.txt"; py "1"]]).
Proof.
  destruct (csv_stops_at_foreign_key
              [MatchRecord (py "http://a.b") (py "u") (py "p") (py "f.txt") 1]
              [("url"%string, VStr (py "http://c.d"));
               ("note"%string, VStr [])]
              [match_record (py "http://e.f") (py "v") (py "q")
                 (py "f.txt") 2]
              "note"%string) as (_ & H & _).
  - reflexivity.
  - right. left. reflexivity.
  - cbn. intuition discriminate.
  - apply H. reflexivity.
Defined.



(** X17: with an output format that is not json, csv or txt, once the
    output path has passed its validation, [main] prints that the
    format is unsupported and exits with status 1: no file is scanned
    and [save_results] is not called. *)
Theorem main_rejects_unsupported_format (w : world) (a : args) :
  supported_format (lower (lstrip_dots (output_suffix w))) = false ->
  fst (validate_output_path w) = Valid ->
  main w a
  = Execution (snd (validate_output_path w) ++ [unsupported_message])
      [] None (Exited 1).
Proof.
  intros Hfmt Hvalid. unfold main.
  destruct (validate_output_path w) as [v out]. cbn [fst snd] in *.
  subst v. rewrite Hfmt. reflexivity.
Qed.

Lemma main_rejects_unsupported_format_witness :
  main xml_world xml_args
  = Execution [unsupported_message] [] None (Exited 1).
Proof.
  apply (main_rejects_unsupported_format xml_world xml_args);
    reflexivity.
Defined.

(** X18: the keyword is looked for in the whole URL, scheme included:
    a keyword that is [http] in any case keeps every line from which a
    triple is extracted. *)
Theorem http_keyword_keeps_all (source : str) (keywords : list str)
    (keyword : str) (n : Z) (line : str) (rs : list dict)
    (url u pw : str) :
  In keyword keywords -> lower keyword = py "http" ->
  extract line = Some (url, u, pw) ->
  scan_line source keywords n line rs
  = rs ++ [match_record url u pw source n].
Proof.
  intros Hin Hk He. unfold scan_line. rewrite He.
  apply extract_credential in He as (_ & _ & _ & Hurl & _).
  destruct Hurl as (sch & H & port & path & -> & Hsch & _).
  assert (Hhit : keyword_hit keywords
                   (sch ++ py "://" ++ H ++ port ++ path) = true).
  { apply keyword_hit_spec.
    assert (Hl : lower (sch ++ py "://" ++ H ++ port ++ path)
                 = lower sch ++ lower (py "://" ++ H ++ port ++ path))
      by apply map_app.
    destruct Hsch as [Hs | Hs]; rewrite Hs in Hl.
    - exists keyword, [], (lower (py "://" ++ H ++ port ++ path)).
      split; [exact Hin|]. rewrite Hk. exact Hl.
    - exists keyword, [],
        (Chr "s" :: lower (py "://" ++ H ++ port ++ path)).
      split; [exact Hin|]. rewrite Hk. exact Hl. }
  rewrite Hhit. reflexivity.
Qed.

Lemma http_keyword_keeps_all_witness :
  scan_line (py "a.txt") [py "HttP"] 2 (py "see https://x.y:u:p") []
  = [match_record (py "https://x.y") (py "u") (py "p") (py "a.txt") 2].
Proof.
  apply (http_keyword_keeps_all (py "a.txt") [py "HttP"] (py "HttP") 2
           (py "see https://x.y:u:p") []).
  - left. reflexivity.
  - reflexivity.
  - reflexivity.
Defined.

(** X19: on a terminal of any width, the banner that is printed is the
    five lines of the banner, each with blanks added on its two sides
    up to the width of the terminal (a line as wide as the terminal or
    wider is left as it is), the two margins differing by one blank at
    most. *)
Theorem banner_is_centred (width : nat) :
  exists out,
    show_signature (Some width) = join [line_feed] out
    /\ Forall2
         (fun o line =>
            exists l r,
              o = repeat blank l ++ line ++ repeat blank r
              /\ length o = Nat.max width (length line)
              /\ l <= r + 1 /\ r <= l + 1)
         out signature_lines.
Proof.
  exists (map (center width) signature_lines). split.
  - unfold show_signature. rewrite split_join; [reflexivity | discriminate |].
    unfold signature_lines.
    repeat constructor; vm_compute; intuition discriminate.
  - generalize signature_lines. intros ls.
    induction ls as [|line ls IH]; cbn [map]; constructor; [|exact IH].
    destruct (center_shape width line) as (l & r & H1 & H2 & _ & H3 & H4).
    exists l, r. auto.
Qed.

(** X20: when the output file exists and no answer to the overwrite
    question is [y] or [n], the [EOFError] of [input] is not caught:
    [main] ends with that exception, after one reminder for each
    answer, and has scanned and written nothing. *)
Theorem unanswered_question_ends_main (w : world) (a : args) :
  output_exists w = true -> output_is_dir w = false ->
  forallb undecided (answers w) = true ->
  main w a
  = Execution (repeat reminder (length (answers w))) [] None
      (Crashed (Exn EOFError (py "EOF when reading a line"))).
Proof.
  intros Hex Hdir Hans. unfold main, validate_output_path.
  rewrite Hex, Hdir.
  rewrite <- (app_nil_r (answers w)) at 1.
  rewrite confirm_undecided by exact Hans. reflexivity.
Qed.

Lemma unanswered_question_ends_main_witness :
  main mute_world xml_args
  = Execution [reminder; reminder] [] None
      (Crashed (Exn EOFError (py "EOF when reading a line"))).
Proof.
  apply (unanswered_question_ends_main mute_world xml_args); reflexivity.
Defined.



(** X22: a match record that cannot be written (one of its strings
    holds a surrogate, or its line number is beyond the limit on the
    digits of an integer) stops the csv and the txt output: when the
    match records before it can be written, the file holds the header
    and their rows, or their lines, nothing of this record or of what
    follows, and one message is printed, which is not the message of an
    I/O error. *)
Theorem unwritable_record_stops_output (good : list record)
    (url u p src : str) (line : Z) (rest : list dict) :
  forallb writable (filter is_match good) = true ->
  writable (MatchRecord url u p src line) = false ->
  (exists text,
     save_results None None
       (map to_dict good ++ match_record url u p src line :: rest)
       (py "csv")
     = Saved
         (Some (CsvRows
                  (csv_header :: map record_row (filter is_match good))))
         [other_error_message text])
  /\ (exists text,
        save_results None None
          (map to_dict good ++ match_record url u p src line :: rest)
          (py "txt")
        = Saved
            (Some (TxtText
                     (concat (map record_line (filter is_match good)))))
            [other_error_message text]).
Proof.
  intros Hgood Hbad. split.
  - rewrite save_csv, csv_rows_app, csv_rows_records by exact Hgood.
    destruct (csv_rows_unwritable url u p src line rest
                ([csv_header] ++ map record_row (filter is_match good))
                Hbad) as (e & -> & He).
    exists (exn_text e). rewrite save_handlers_other by exact He.
    reflexivity.
  - rewrite save_txt, txt_lines_app, txt_lines_records by exact Hgood.
    destruct (txt_lines_unwritable url u p src line rest
                ([] ++ concat (map record_line (filter is_match good)))
                Hbad) as (e & -> & He).
    exists (exn_text e). rewrite save_handlers_other by exact He.
    reflexivity.
Qed.

Lemma unwritable_record_stops_output_witness :
  (exists text,
     save_results None None
       [match_record (py "http://a.b") (py "u") (py "p") (py "f.txt") 1;
        match_record (py "http://c.d") (py "v") (py "q") escaped_name 1;
        match_record (py "http://e.f") (py "w") (py "r") (py "f.txt") 2]
       (py "csv")
     = Saved
         (Some (CsvRows
                  [csv_header;
                   [py "http://a.b"; py "u"; py "p"; py "f.txt"; py "1"]]))
         [other_error_message text])
  /\ (exists text,
        save_results None None
          [match_record (py "http://a.b") (py "u") (py "p") (py "f.txt") 1;
           match_record (py "http://c.d") (py "v") (py "q") escaped_name 1;
           match_record (py "http://e.f") (py "w") (py "r") (py "f.txt") 2]
          (py "txt")
        = Saved
            (Some (TxtText
                     (py "URL: http://a.b, Username: u, Password: p, Source: f.txt, Line: 1"
                        ++ [newline])))
            [other_error_message text]).
Proof.
  apply (unwritable_record_stops_output
           [MatchRecord (py "http://a.b") (py "u") (py "p") (py "f.txt") 1]
           (py "http://c.d") (py "v") (py "q") escaped_name 1
           [match_record (py "http://e.f") (py "w") (py "r") (py "f.txt") 2]);
    reflexivity.
Defined.


